(** * AssemblyHandler: a shallow embedding of the interpreter

    The development follows [AssemblyHandler.py]: the machine state of the
    class [AssemblyHandler] (memory, the register dictionary [short_term],
    the command list, the error flag), the per-instruction method
    [parse_command] and the fetch loop [execute].

    Python values are modelled as follows.
    - [int] is unbounded, hence [Z]; [//] is floor division, hence [Z.div].
    - [self.short_term] is a [dict] keyed by strings: a [gmap string Z].
      Reading a missing key raises [KeyError]; writing a missing key adds it.
    - [self.memory] and [self.commands] are Python lists: indexing accepts
      the negative indices [-len .. -1] and raises [IndexError] elsewhere.
    - An uncaught exception ends the interpreter: results live in the
      error monad [res].
    - [print] appends a line to the output stream, kept in the state.
    Command text is taken to be ASCII. *)

From Stdlib Require Import ZArith Lia Strings.Ascii Strings.String.
From Stdlib Require Import QArith.QArith_base QArith.Qround.
From stdpp Require Import gmap strings list fin_maps.

Local Open Scope Z_scope.

(** ** Python exceptions and the result monad *)

Inductive exn : Type := IndexError | KeyError | ValueError.

Inductive res (A : Type) : Type :=
| Val (a : A)
| Exc (e : exn).
Arguments Val {A} a.
Arguments Exc {A} e.

#[global] Instance res_ret : MRet res := fun A a => Val a.
#[global] Instance res_bind : MBind res := fun A B f m =>
  match m with
  | Val a => f a
  | Exc e => Exc e
  end.

(** ** Strings: [str.split()] and [int(str)] *)

(** ASCII characters for which [str.isspace] holds. *)
Definition is_space (c : ascii) : bool :=
  let n := Z.of_nat (nat_of_ascii c) in
  ((9 <=? n) && (n <=? 13)) || ((28 <=? n) && (n <=? 32)).

Definition flush (cur : string) (acc : list string) : list string :=
  match cur with
  | EmptyString => acc
  | _ => cur :: acc
  end.

(** [split_from cur s]: the tokens of [s], [cur] being the token under
    construction. *)
Fixpoint split_from (cur : string) (s : string) : list string :=
  match s with
  | EmptyString => flush cur []
  | String c s' =>
      if is_space c then flush cur (split_from EmptyString s')
      else split_from (cur +:+ String c EmptyString) s'
  end.

(** [command.split()] *)
Definition split (command : string) : list string :=
  split_from EmptyString command.

Definition digit_of (c : ascii) : option Z :=
  let n := Z.of_nat (nat_of_ascii c) in
  if (48 <=? n) && (n <=? 57) then Some (n - 48) else None.

(** Digits after the first one; a single underscore may separate two
    digits. *)
Fixpoint int_digits (acc : Z) (after_underscore : bool) (s : string)
  : option Z :=
  match s with
  | EmptyString => if after_underscore then None else Some acc
  | String c s' =>
      if Ascii.eqb c "_"%char then
        if after_underscore then None else int_digits acc true s'
      else
        match digit_of c with
        | Some d => int_digits (10 * acc + d) false s'
        | None => None
        end
  end.

Definition int_unsigned (s : string) : option Z :=
  match s with
  | EmptyString => None
  | String c s' =>
      match digit_of c with
      | Some d => int_digits d false s'
      | None => None
      end
  end.

(** [int(tok)] in base 10, for a token without white space: an optional
    sign followed by decimal digits. Anything else raises [ValueError].
    (The interpreter's configurable cap on the number of digits is not
    modelled.) *)
Definition py_int (tok : string) : res Z :=
  let body :=
    match tok with
    | String "-"%char s' => Z.opp <$> int_unsigned s'
    | String "+"%char s' => int_unsigned s'
    | _ => int_unsigned tok
    end in
  match body with
  | Some v => Val v
  | None => Exc ValueError
  end.

(** ** Python lists *)

(** The position a Python index denotes in a list of length [n]. *)
Definition py_pos (n : Z) (i : Z) : option nat :=
  let j := if i <? 0 then i + n else i in
  if (0 <=? j) && (j <? n) then Some (Z.to_nat j) else None.

(** [l[i]] *)
Definition py_getitem {A : Type} (l : list A) (i : Z) : res A :=
  match py_pos (Z.of_nat (length l)) i with
  | Some k =>
      match l !! k with
      | Some x => Val x
      | None => Exc IndexError
      end
  | None => Exc IndexError
  end.

(** [l[i] = v] *)
Definition py_setitem {A : Type} (l : list A) (i : Z) (v : A) : res (list A) :=
  match py_pos (Z.of_nat (length l)) i with
  | Some k => Val (<[k := v]> l)
  | None => Exc IndexError
  end.

(** [parts[k]] for a literal, non-negative [k]. *)
Definition part (parts : list string) (k : nat) : res string :=
  match parts !! k with
  | Some tok => Val tok
  | None => Exc IndexError
  end.

(** ** Machine state *)

Inductive line : Type :=
| Text (s : string)
| Number (z : Z).

Record state : Type := mkState {
  memory : list Z;
  short_term : gmap string Z;
  commands : list string;
  error : bool;
  stdout : list line
}.

Definition memory_size : nat := 2048.

(** [AssemblyHandler.__init__] *)
Definition init : state :=
  {| memory := replicate memory_size 0;
     short_term :=
       <["A" := 0]> (<["B" := 0]> (<["C" := 0]> (<["D" := 0]>
         (<["P" := 0]> (<["X" := 0]> ∅)))));
     commands := [];
     error := false;
     stdout := [] |}.

(** [load_commands_from_user], given the lines read before [END]. *)
Definition load_commands_from_user (lines : list string) (s : state) : state :=
  {| memory := memory s; short_term := short_term s;
     commands := commands s ++ lines;
     error := error s; stdout := stdout s |}.

Definition register_names : gset string :=
  {["A"; "B"; "C"; "D"; "P"; "X"]}.

Definition diagnostic : line := Text "I'm afraid I can't do that".
Definition halt_message : line := Text "Execution halted".

(** [2**42] *)
Definition limit : Z := 2 ^ 42.

(** [abs(v) > 2**42] *)
Definition overflows (v : Z) : bool := Z.abs v >? limit.

(** [self.short_term[r]] *)
Definition getreg (r : string) (s : state) : res Z :=
  match short_term s !! r with
  | Some v => Val v
  | None => Exc KeyError
  end.

(** [self.short_term[r] = v] *)
Definition setreg (r : string) (v : Z) (s : state) : state :=
  {| memory := memory s; short_term := <[r := v]> (short_term s);
     commands := commands s; error := error s; stdout := stdout s |}.

Definition setmem (m : list Z) (s : state) : state :=
  {| memory := m; short_term := short_term s;
     commands := commands s; error := error s; stdout := stdout s |}.

(** [print(x)] *)
Definition print (l : line) (s : state) : state :=
  {| memory := memory s; short_term := short_term s;
     commands := commands s; error := error s; stdout := stdout s ++ [l] |}.

(** [self.error = True] *)
Definition set_error (s : state) : state :=
  {| memory := memory s; short_term := short_term s;
     commands := commands s; error := true; stdout := stdout s |}.

(** The two statements every fault path starts with:
    [self.error = True; print("I'm afraid I can't do that")]. *)
Definition fault (s : state) : state := print diagnostic (set_error s).

(** [self.short_term[r] += v] *)
Definition addreg (r : string) (v : Z) (s : state) : res state :=
  old ← getreg r s; Val (setreg r (old + v) s).

(** ** [parse_command] *)

(** How the [if]/[elif] chain of [parse_command] is left: by reaching its
    end ([Fall], the trailing increments follow) or by [return]. *)
Inductive flow : Type :=
| Fall (s : state)
| Return (s : state).

(** The branches of ADD, SUB and MUL differ in the operator only:
    [self.short_term[parts[1]] op= self.short_term[parts[2]]], then the
    overflow check on the register just written. *)
Definition arith (op : Z → Z → Z) (parts : list string) (s : state)
  : res flow :=
  r1 ← part parts 1;
  a ← getreg r1 s;
  r2 ← part parts 2;
  b ← getreg r2 s;
  let s1 := setreg r1 (op a b) s in
  v ← getreg r1 s1;
  if overflows v then Val (Return (fault s1)) else Val (Fall s1).

(** The [if]/[elif] chain on [parts[0]]. Operands are evaluated in
    Python's order: the right-hand side of an assignment before the
    subscript of its target, the old value of an augmented assignment
    before its right-hand side. *)
Definition dispatch (parts : list string) (s : state) : res flow :=
  opcode ← part parts 0;
  if String.eqb opcode "LOADA" then
    tok ← part parts 2;
    i ← py_int tok;
    v ← py_getitem (memory s) i;
    r ← part parts 1;
    Val (Fall (setreg r v s))
  else if String.eqb opcode "LOAD" then
    a ← getreg "A" s;
    v ← py_getitem (memory s) a;
    r ← part parts 1;
    Val (Fall (setreg r v s))
  else if String.eqb opcode "LOADI" then
    tok ← part parts 2;
    value ← py_int tok;
    if overflows value then Val (Return (fault s))
    else
      r ← part parts 1;
      Val (Fall (setreg r value s))
  else if String.eqb opcode "STOREA" then
    tok ← part parts 2;
    mem_address ← py_int tok;
    r ← part parts 1;
    v ← getreg r s;
    if overflows v then Val (Return (fault s))
    else
      m ← py_setitem (memory s) mem_address v;
      Val (Fall (setmem m s))
  else if String.eqb opcode "STORE" then
    mem_address ← getreg "A" s;
    r ← part parts 1;
    v ← getreg r s;
    if overflows v then Val (Return (fault s))
    else
      m ← py_setitem (memory s) mem_address v;
      Val (Fall (setmem m s))
  else if String.eqb opcode "MOVE" then
    r2 ← part parts 2;
    v ← getreg r2 s;
    r1 ← part parts 1;
    Val (Fall (setreg r1 v s))
  else if String.eqb opcode "ADDI" then
    tok ← part parts 2;
    value ← py_int tok;
    if overflows value then Val (Return (fault s))
    else
      r ← part parts 1;
      s1 ← addreg r value s;
      Val (Fall s1)
  else if String.eqb opcode "ADD" then arith Z.add parts s
  else if String.eqb opcode "SUB" then arith Z.sub parts s
  else if String.eqb opcode "MUL" then arith Z.mul parts s
  else if String.eqb opcode "DIV" then
    r2 ← part parts 2;
    b ← getreg r2 s;
    if b =? 0 then Val (Fall (fault s))
    else
      r1 ← part parts 1;
      a ← getreg r1 s;
      let s1 := setreg r1 (a / b) s in
      v ← getreg r1 s1;
      if overflows v then Val (Return (fault s1)) else Val (Fall s1)
  else if String.eqb opcode "J" then
    p ← getreg "P" s;
    tok ← part parts 1;
    offset ← py_int tok;
    Val (Fall (setreg "P" (p + offset) s))
  else if String.eqb opcode "JR" then
    p ← getreg "P" s;
    r ← part parts 1;
    v ← getreg r s;
    Val (Fall (setreg "P" (p + v) s))
  else if String.eqb opcode "JZ" then
    r ← part parts 1;
    v ← getreg r s;
    if v =? 0 then
      p ← getreg "P" s;
      tok ← part parts 2;
      offset ← py_int tok;
      Val (Fall (setreg "P" (p + offset) s))
    else Val (Fall s)
  else if String.eqb opcode "JLT" then
    r1 ← part parts 1;
    a ← getreg r1 s;
    r2 ← part parts 2;
    b ← getreg r2 s;
    if a <? b then
      p ← getreg "P" s;
      tok ← part parts 3;
      offset ← py_int tok;
      Val (Fall (setreg "P" (p + offset) s))
    else Val (Fall s)
  else if String.eqb opcode "HALT" then
    Val (Return (print halt_message (set_error s)))
  else if String.eqb opcode "PRINT" then
    r ← part parts 1;
    v ← getreg r s;
    Val (Fall (print (Number v) s))
  else Val (Fall s).

(** The two statements after the chain:
    [self.short_term["P"] += 1; self.short_term["X"] += 1]. *)
Definition advance (s : state) : res state :=
  s1 ← addreg "P" 1 s; addreg "X" 1 s1.

(** [parse_command] once [command.split()] has produced [parts]. *)
Definition run_parts (parts : list string) (s : state) : res state :=
  f ← dispatch parts s;
  match f with
  | Return s' => Val s'
  | Fall s' => advance s'
  end.

Definition parse_command (command : string) (s : state) : res state :=
  run_parts (split command) s.

(** ** [execute] *)

(** One pass through the [while] loop: [Continue] with the next state, or
    [Break] when the loop is left (condition false, or [break]). *)
Inductive loop : Type :=
| Continue (s : state)
| Break (s : state).

Definition execute_body (s : state) : res loop :=
  p ← getreg "P" s;
  if (p <? Z.of_nat (length (commands s))) && negb (error s) then
    command ← py_getitem (commands s) p;
    if (p <? 0) || (p >=? 10000) then Val (Break (fault s))
    else
      x ← getreg "X" s;
      if x >? 10 ^ 6 then Val (Break (fault s))
      else
        s' ← parse_command command s;
        Val (Continue s')
  else Val (Break s).

(** The loop, run for at most [fuel] passes. [None]: still running when
    the fuel is spent; [Some (Val s)]: the loop ended in [s];
    [Some (Exc e)]: an uncaught exception ended the interpreter. *)
Fixpoint execute (fuel : nat) (s : state) : option (res state) :=
  match fuel with
  | O => None
  | S fuel' =>
      match execute_body s with
      | Exc e => Some (Exc e)
      | Val (Break s') => Some (Val s')
      | Val (Continue s') => execute fuel' s'
      end
  end.

(** The script at the end of the module: a fresh machine, the commands
    read from the user, [execute]. *)
Definition run (fuel : nat) (lines : list string) : option (res state) :=
  execute fuel (load_commands_from_user lines init).

(** ** Observations on a finished run *)

(** Value of register [r] where the run ended. *)
Definition final_reg (r : string) (o : option (res state)) : option Z :=
  match o with
  | Some (Val s) => short_term s !! r
  | _ => None
  end.

(** Content of memory cell [k] where the run ended. *)
Definition final_cell (k : nat) (o : option (res state)) : option Z :=
  match o with
  | Some (Val s) => memory s !! k
  | _ => None
  end.

(** Output and error flag where the run ended. *)
Definition final_output (o : option (res state))
  : option (list line * bool) :=
  match o with
  | Some (Val s) => Some (stdout s, error s)
  | _ => None
  end.

(** The exception that ended the run, if one did. *)
Definition final_exn (o : option (res state)) : option exn :=
  match o with
  | Some (Exc e) => Some e
  | _ => None
  end.

(** ** Auxiliary definitions for the statements *)

(** The state a branch of the chain hands on. *)
Definition flow_state (f : flow) : state :=
  match f with
  | Fall s => s
  | Return s => s
  end.

(** The key written by a plain assignment [self.short_term[parts[1]] = ...]:
    only LOADA, LOAD, LOADI and MOVE have one. Every other register write
    is an augmented assignment, which reads the key first. *)
Definition assigned_name (parts : list string) : gset string :=
  match parts !! 0%nat, parts !! 1%nat with
  | Some opcode, Some r =>
      if String.eqb opcode "LOADA" || String.eqb opcode "LOAD"
         || String.eqb opcode "LOADI" || String.eqb opcode "MOVE"
      then {[r]} else ∅
  | _, _ => ∅
  end.

(** The state a pass through the loop hands on. *)
Definition loop_state (l : loop) : state :=
  match l with
  | Continue s => s
  | Break s => s
  end.

(** A program in which every plain register assignment names one of the
    six registers. *)
Definition well_named (lines : list string) : Prop :=
  ∀ c, c ∈ lines → assigned_name (split c) ⊆ register_names.



(** [passes n s]: the state after [n] complete passes through the loop,
    each of which dispatched one instruction; [None] if the loop ended
    before. *)
Fixpoint passes (n : nat) (s : state) : option state :=
  match n with
  | O => Some s
  | S n' =>
      match execute_body s with
      | Val (Continue s') => passes n' s'
      | _ => None
      end
  end.

(** The states of a program that starts with [J -1], while it loops: P
    stays at 0, X counts the passes. *)
Definition spinning (rest : list string) (x : Z) (s : state) : Prop :=
  commands s = "J -1" :: rest
  ∧ error s = false
  ∧ stdout s = []
  ∧ getreg "P" s = Val 0
  ∧ getreg "X" s = Val x.

(** X is an ordinary key of the register dictionary: LOADI X 0 resets the
    step counter. *)
Definition reset_loop : list string := ["LOADI X 0"; "J -2"].

(** The two states the loop alternates between: about to run LOADI X 0
    (P = 0, X at most 2), and about to run J -2 (P = 1, X = 1). *)
Definition at_reset (s : state) : Prop :=
  commands s = reset_loop
  ∧ error s = false
  ∧ stdout s = []
  ∧ getreg "P" s = Val 0
  ∧ ∃ x, getreg "X" s = Val x ∧ x ≤ 2.

Definition at_jump (s : state) : Prop :=
  commands s = reset_loop
  ∧ error s = false
  ∧ stdout s = []
  ∧ getreg "P" s = Val 1
  ∧ getreg "X" s = Val 1.

(** ** Reading the program: [load_commands_from_user] on an input stream *)

(** [str.lstrip()] *)
Fixpoint lstrip (s : string) : string :=
  match s with
  | EmptyString => EmptyString
  | String c s' => if is_space c then lstrip s' else s
  end.

(** [str.rstrip()] *)
Fixpoint rstrip (s : string) : string :=
  match s with
  | EmptyString => EmptyString
  | String c s' =>
      match rstrip s' with
      | EmptyString => if is_space c then EmptyString else String c EmptyString
      | r => String c r
      end
  end.

(** [str.strip()] *)
Definition strip (s : string) : string := rstrip (lstrip s).

(** What the input loop ends with: the machine with its commands, or the
    [EOFError] that [input()] raises when the input has no more lines. *)
Inductive loaded : Type :=
| Loaded (s : state)
| EOFError.

(** The loop of [load_commands_from_user] over the lines [input()] will
    return: each line is stripped; the line END ends the loop, any other is
    appended to the commands. *)
Fixpoint load_commands_from_input (input : list string) (s : state)
  : loaded :=
  match input with
  | [] => EOFError
  | l :: input' =>
      let command := strip l in
      if String.eqb command "END" then Loaded s
      else load_commands_from_input input'
             (load_commands_from_user [command] s)
  end.

(** A string of white space only (the empty string included). *)
Fixpoint all_space (s : string) : bool :=
  match s with
  | EmptyString => true
  | String c s' => is_space c && all_space s'
  end.

(** ** Further definitions for the statements *)

(** The opcodes the [if]/[elif] chain tests for. *)
Definition known_opcode (opcode : string) : bool :=
  String.eqb opcode "LOADA" || String.eqb opcode "LOAD"
  || String.eqb opcode "LOADI" || String.eqb opcode "STOREA"
  || String.eqb opcode "STORE" || String.eqb opcode "MOVE"
  || String.eqb opcode "ADDI" || String.eqb opcode "ADD"
  || String.eqb opcode "SUB" || String.eqb opcode "MUL"
  || String.eqb opcode "DIV" || String.eqb opcode "J"
  || String.eqb opcode "JR" || String.eqb opcode "JZ"
  || String.eqb opcode "JLT" || String.eqb opcode "HALT"
  || String.eqb opcode "PRINT".

(** Memory as [__init__] makes it and the checked stores keep it: 2048
    cells, each within the bound. *)
Definition memory_ok (s : state) : Prop :=
  length (memory s) = memory_size
  ∧ Forall (λ v, Z.abs v ≤ limit) (memory s).

Definition is_number (l : line) : Prop := ∃ z, l = Number z.

Definition is_message (l : line) : Prop :=
  l = diagnostic ∨ l = halt_message.

(** The shape of the output: printed numbers only while the error flag is
    clear; printed numbers followed by one message once it is set. *)
Definition output_ok (s : state) : Prop :=
  (error s = false ∧ Forall is_number (stdout s))
  ∨ (error s = true
     ∧ ∃ numbers message,
         stdout s = numbers ++ [message]
         ∧ Forall is_number numbers ∧ is_message message).

(** A program no line of which has X as its first operand. *)
Definition x_free (lines : list string) : Prop :=
  ∀ c, c ∈ lines → split c !! 1%nat ≠ Some "X".

(** ** Sample runs *)

Example print_after_loadi :
  final_output (run 3 ["LOADI A 5"; "PRINT A"]) = Some ([Number 5], false).
Proof. vm_compute. reflexivity. Qed.

Example div_by_zero_output :
  final_output (run 4 ["LOADI A 100"; "LOADI B 0"; "DIV A B"; "PRINT A"])
  = Some ([diagnostic], true).
Proof. vm_compute. reflexivity. Qed.

Example empty_program :
  final_output (run 1 []) = Some ([], false).
Proof. vm_compute. reflexivity. Qed.

(** ** Basic facts about registers and lists *)

Lemma getreg_lookup (r : string) (s : state) (v : Z) :
  getreg r s = Val v ↔ short_term s !! r = Some v.
Proof.
  unfold getreg. destruct (short_term s !! r); split; intros H;
    inversion H; reflexivity.
Qed.

Lemma getreg_setreg (r : string) (v : Z) (s : state) :
  getreg r (setreg r v s) = Val v.
Proof. apply getreg_lookup. simpl. apply lookup_insert_eq. Qed.

Lemma getreg_setreg_ne (r r' : string) (v : Z) (s : state) :
  r ≠ r' → getreg r' (setreg r v s) = getreg r' s.
Proof. intros Hne. unfold getreg. simpl. by rewrite lookup_insert_ne. Qed.

Lemma overflows_spec (v : Z) : overflows v = true ↔ limit < Z.abs v.
Proof. unfold overflows. rewrite Z.gtb_ltb. apply Z.ltb_lt. Qed.

Lemma overflows_false (v : Z) : overflows v = false ↔ Z.abs v ≤ limit.
Proof. unfold overflows. rewrite Z.gtb_ltb. apply Z.ltb_ge. Qed.

(** Floor division never grows the magnitude of the dividend. *)
Lemma abs_div_le (a b : Z) : b ≠ 0 → Z.abs (a / b) ≤ Z.abs a.
Proof.
  intros Hb.
  pose proof (Z.div_mod a b Hb) as Hdm.
  destruct (Z_lt_le_dec 0 b) as [Hpos | Hneg].
  - pose proof (Z.mod_pos_bound a b Hpos). nia.
  - assert (b < 0) as Hlt by lia.
    pose proof (Z.mod_neg_bound a b Hlt). nia.
Qed.

(** [Z.div] is the floor of the rational quotient. *)
Lemma div_Qfloor (a b : Z) :
  b ≠ 0 → Qfloor (inject_Z a / inject_Z b) = a / b.
Proof.
  intros Hb. destruct b as [| p | p]; [congruence | |].
  - unfold Qdiv, Qinv, Qmult, inject_Z, Qfloor. simpl.
    by rewrite Z.mul_1_r.
  - unfold Qdiv, Qinv, Qmult, inject_Z, Qfloor. simpl.
    rewrite <- (Z.div_opp_opp a (Z.neg p)) by lia.
    f_equal; lia.
Qed.

(** A list position read through a non-negative Python index. *)
Lemma py_getitem_nat {A : Type} (l : list A) (k : nat) (x : A) :
  l !! k = Some x → py_getitem l (Z.of_nat k) = Val x.
Proof.
  intros Hk. pose proof (lookup_lt_Some _ _ _ Hk) as Hlt.
  unfold py_getitem, py_pos.
  destruct (Z.of_nat k <? 0) eqn:Hneg; [apply Z.ltb_lt in Hneg; lia |].
  assert ((0 <=? Z.of_nat k) && (Z.of_nat k <? Z.of_nat (length l)) = true)
    as -> by (apply andb_true_iff; split;
              [apply Z.leb_le | apply Z.ltb_lt]; lia).
  by rewrite Nat2Z.id, Hk.
Qed.

(** ** Case analysis on [dispatch] *)

(** Split on every bind, test and branch of a hypothesis about a
    computation in [res]. *)
Ltac res_cases H :=
  unfold arith, addreg in H; unfold mbind, res_bind in H;
  repeat (case_match; simplify_eq/=).

(** [return] is only executed on the fault paths and by HALT, which all
    set the error flag first. *)
Lemma dispatch_Return_error (parts : list string) (s s1 : state) :
  dispatch parts s = Val (Return s1) → error s1 = true.
Proof.
  intros H. unfold dispatch in H. res_cases H; reflexivity.
Qed.

Lemma dispatch_dom (parts : list string) (s : state) (f : flow) :
  dispatch parts s = Val f →
  dom (short_term s) ⊆ dom (short_term (flow_state f))
  ∧ dom (short_term (flow_state f))
      ⊆ dom (short_term s) ∪ assigned_name parts.
Proof.
  intros H. unfold dispatch, part, getreg in H.
  res_cases H; unfold getreg in *;
    repeat (case_match; simplify_eq/=);
    unfold assigned_name;
    repeat match goal with
      | E : String.eqb _ _ = true |- _ =>
          pose proof (proj1 (String.eqb_eq _ _) E); clear E; subst
      | E : String.eqb _ _ = false |- _ => rewrite ?E; clear E
      | E : parts !! _ = Some _ |- _ => rewrite ?E; clear E
      | E : short_term _ !! _ = Some _ |- _ =>
          pose proof (elem_of_dom_2 _ _ _ E); clear E
      end;
    simpl; repeat case_match;
    rewrite ?dom_insert_L; set_solver.
Qed.

Lemma advance_spec (s1 : state) (p x : Z) :
  short_term s1 !! "P" = Some p →
  short_term s1 !! "X" = Some x →
  advance s1 = Val (setreg "X" (x + 1) (setreg "P" (p + 1) s1)).
Proof.
  intros Hp Hx. unfold advance, addreg, getreg. rewrite Hp. simpl.
  rewrite lookup_insert_ne; [| done]. by rewrite Hx.
Qed.

Lemma advance_inv (s1 s' : state) :
  advance s1 = Val s' →
  ∃ p x, short_term s1 !! "P" = Some p ∧ short_term s1 !! "X" = Some x
         ∧ s' = setreg "X" (x + 1) (setreg "P" (p + 1) s1).
Proof.
  intros H. unfold advance, addreg, getreg in H.
  destruct (short_term s1 !! "P") as [p |] eqn:Hp; [| discriminate H].
  simpl in H. rewrite lookup_insert_ne in H; [| done].
  destruct (short_term s1 !! "X") as [x |] eqn:Hx; [| discriminate H].
  simpl in H. exists p, x. by simplify_eq.
Qed.

Lemma run_parts_dom (parts : list string) (s s' : state) :
  run_parts parts s = Val s' →
  dom (short_term s) ⊆ dom (short_term s')
  ∧ dom (short_term s') ⊆ dom (short_term s) ∪ assigned_name parts.
Proof.
  intros H. unfold run_parts in H.
  destruct (dispatch parts s) as [f | e] eqn:Hd; [| discriminate H].
  pose proof (dispatch_dom _ _ _ Hd) as Hdom. simpl in H.
  destruct f as [s1 | s1]; simpl in *.
  - destruct (advance_inv _ _ H) as (p & x & Hp & Hx & ->). simpl.
    pose proof (elem_of_dom_2 _ _ _ Hp). pose proof (elem_of_dom_2 _ _ _ Hx).
    rewrite !dom_insert_L. set_solver.
  - by simplify_eq.
Qed.

(** ** The register file *)

Lemma init_names : dom (short_term init) = register_names.
Proof.
  unfold init, register_names. simpl. rewrite !dom_insert_L, dom_empty_L.
  set_solver.
Qed.

Lemma init_zero (r : string) :
  r ∈ register_names → short_term init !! r = Some 0.
Proof.
  unfold register_names. rewrite !elem_of_union, !elem_of_singleton.
  intros H. decompose [or] H; subst; reflexivity.
Qed.

Lemma dispatch_commands (parts : list string) (s : state) (f : flow) :
  dispatch parts s = Val f → commands (flow_state f) = commands s.
Proof.
  intros H. unfold dispatch in H. res_cases H; reflexivity.
Qed.

Lemma run_parts_commands (parts : list string) (s s' : state) :
  run_parts parts s = Val s' → commands s' = commands s.
Proof.
  intros H. unfold run_parts in H.
  destruct (dispatch parts s) as [f | e] eqn:Hd; [| discriminate H].
  pose proof (dispatch_commands _ _ _ Hd) as Hc. simpl in H.
  destruct f as [s1 | s1]; simpl in *.
  - destruct (advance_inv _ _ H) as (p & x & _ & _ & ->). exact Hc.
  - by simplify_eq.
Qed.

Lemma py_getitem_elem {A : Type} (l : list A) (i : Z) (x : A) :
  py_getitem l i = Val x → x ∈ l.
Proof.
  unfold py_getitem. intros H. repeat case_match; simplify_eq.
  by eapply list_elem_of_lookup_2.
Qed.

Lemma execute_body_names (s : state) (l : loop) :
  execute_body s = Val l →
  well_named (commands s) →
  dom (short_term s) = register_names →
  commands (loop_state l) = commands s
  ∧ dom (short_term (loop_state l)) = register_names.
Proof.
  intros H Hwn Hdom. unfold execute_body in H.
  unfold mbind, res_bind in H.
  repeat (case_match; simplify_eq/=); try done.
  match goal with
  | Hrun : parse_command _ _ = Val _ |- _ =>
      unfold parse_command in Hrun;
      pose proof (run_parts_commands _ _ _ Hrun) as Hc;
      destruct (run_parts_dom _ _ _ Hrun) as [Hlo Hhi]
  end.
  split; [exact Hc |].
  match goal with
  | Hget : py_getitem _ _ = Val ?c |- _ =>
      pose proof (Hwn c (py_getitem_elem _ _ _ Hget)) as Hin
  end.
  apply (anti_symm (⊆)).
  - etrans; [exact Hhi |]. rewrite Hdom. by apply union_least.
  - rewrite <- Hdom. exact Hlo.
Qed.

Lemma execute_names (fuel : nat) :
  ∀ s s', execute fuel s = Some (Val s') →
          well_named (commands s) →
          dom (short_term s) = register_names →
          dom (short_term s') = register_names.
Proof.
  induction fuel as [| fuel IH]; intros s s' H Hwn Hdom; [discriminate H |].
  simpl in H.
  destruct (execute_body s) as [[s1 | s1] | e] eqn:Hbody;
    [| | discriminate H].
  - destruct (execute_body_names _ _ Hbody Hwn Hdom) as [Hc Hd].
    simpl in Hc, Hd. apply (IH s1 s' H); [by rewrite Hc | exact Hd].
  - destruct (execute_body_names _ _ Hbody Hwn Hdom) as [Hc Hd].
    by simplify_eq.
Qed.

(** The plain assignments do create their key: when a branch of LOADA,
    LOAD, LOADI or MOVE reaches the end of the chain, its first operand is
    a key of the register dictionary. *)
Lemma dispatch_assigned (parts : list string) (s s1 : state) :
  dispatch parts s = Val (Fall s1) →
  assigned_name parts ⊆ dom (short_term s1).
Proof.
  intros H. unfold dispatch, part, getreg in H.
  res_cases H; unfold getreg in *;
    repeat (case_match; simplify_eq/=);
    unfold assigned_name;
    repeat match goal with
      | E : String.eqb _ _ = true |- _ =>
          pose proof (proj1 (String.eqb_eq _ _) E); clear E; subst
      end;
    repeat match goal with
      | E : parts !! _ = Some _ |- _ => rewrite ?E; clear E
      end;
    repeat match goal with
      | E : String.eqb _ _ = false |- _ => rewrite ?E; clear E
      | E : short_term _ !! _ = Some _ |- _ =>
          pose proof (elem_of_dom_2 _ _ _ E); clear E
      end;
    simpl; repeat case_match;
    rewrite ?dom_insert_L; set_solver.
Qed.

(** The keys after an instruction that left the error flag clear. *)
Lemma run_parts_dom_exact (parts : list string) (s s' : state) :
  run_parts parts s = Val s' → error s' = false →
  dom (short_term s') = dom (short_term s) ∪ assigned_name parts.
Proof.
  intros H Herr. destruct (run_parts_dom _ _ _ H) as [Hlo Hhi].
  apply (anti_symm (⊆)); [exact Hhi |].
  apply union_least; [exact Hlo |].
  unfold run_parts in H.
  destruct (dispatch parts s) as [[s1 | s1] | e] eqn:Hd; simpl in H.
  - pose proof (dispatch_assigned _ _ _ Hd) as Ha.
    destruct (advance_inv _ _ H) as (p & x & Hp & Hx & ->). simpl.
    rewrite !dom_insert_L. set_solver.
  - pose proof (dispatch_Return_error _ _ _ Hd). simplify_eq. congruence.
  - discriminate H.
Qed.

(** X19: the register dictionary starts with exactly the six names A, B,
    C, D, P, X, all 0. No instruction removes a name, and an instruction
    adds at most the first operand of a LOADA, LOAD, LOADI or MOVE; after
    an instruction that left the error flag clear the names are exactly
    the old ones and that operand. So the six names are kept by every
    instruction whose assigned name is one of them, and a run of a program
    made of such instructions ends with exactly the six names. *)
Theorem register_slots_kept :
  dom (short_term init) = register_names
  ∧ (∀ r, r ∈ register_names → short_term init !! r = Some 0)
  ∧ (∀ parts s s', run_parts parts s = Val s' →
       dom (short_term s) ⊆ dom (short_term s')
       ∧ dom (short_term s') ⊆ dom (short_term s) ∪ assigned_name parts)
  ∧ (∀ parts s s', run_parts parts s = Val s' →
       dom (short_term s) = register_names →
       assigned_name parts ⊆ register_names →
       dom (short_term s') = register_names)
  ∧ (∀ fuel lines s', well_named lines →
       run fuel lines = Some (Val s') →
       dom (short_term s') = register_names)
  ∧ (∀ parts s s', run_parts parts s = Val s' → error s' = false →
       dom (short_term s') = dom (short_term s) ∪ assigned_name parts).
Proof.
  split; [apply init_names |]. split; [apply init_zero |].
  split; [apply run_parts_dom |]. split; [| split].
  - intros parts s s' H Hs Ha.
    destruct (run_parts_dom _ _ _ H) as [Hlo Hhi].
    apply (anti_symm (⊆)).
    + etrans; [exact Hhi |]. rewrite Hs. by apply union_least.
    + rewrite <- Hs. exact Hlo.
  - intros fuel lines s' Hwn Hrun.
    apply (execute_names fuel _ s' Hrun); [exact Hwn | apply init_names].
  - apply run_parts_dom_exact.
Qed.

Lemma register_slots_kept_witness :
  run_parts ["MOVE"; "B"; "A"] init
  = Val (setreg "X" 1 (setreg "P" 1 (setreg "B" 0 init)))
  ∧ dom (short_term (setreg "X" 1 (setreg "P" 1 (setreg "B" 0 init))))
    = register_names.
Proof.
  assert (run_parts ["MOVE"; "B"; "A"] init
          = Val (setreg "X" 1 (setreg "P" 1 (setreg "B" 0 init)))) as Hrun
    by (vm_compute; reflexivity).
  split; [exact Hrun |].
  destruct register_slots_kept as (_ & _ & _ & Hkeep & _).
  apply (Hkeep ["MOVE"; "B"; "A"] init _ Hrun).
  - apply init_names.
  - unfold assigned_name, register_names. simpl. set_solver.
Defined.

(** C7 on the code: register names are not checked where a register is
    assigned. Z is not one of the six names and is no key of a fresh
    machine, yet LOADI Z 5 runs without a fault or any output and leaves a
    seventh key Z, holding 5; MOVE, LOADA and LOAD with Z as destination
    create it as well. The instructions that read their first operand
    reject the same name: ADDI Z 5, ADD Z A and PRINT Z raise the uncaught
    KeyError. *)
Theorem register_name_unchecked :
  ("Z" ∉ register_names)
  ∧ final_reg "Z" (run 1 []) = None
  ∧ final_reg "Z" (run 2 ["LOADI Z 5"]) = Some 5
  ∧ final_output (run 2 ["LOADI Z 5"]) = Some ([], false)
  ∧ (∃ s', parse_command "LOADI Z 5" init = Val s'
           ∧ dom (short_term s') = register_names ∪ {["Z"]})
  ∧ final_reg "Z" (run 2 ["MOVE Z A"]) = Some 0
  ∧ final_reg "Z" (run 2 ["LOADA Z 0"]) = Some 0
  ∧ final_reg "Z" (run 2 ["LOAD Z"]) = Some 0
  ∧ run 2 ["ADDI Z 5"] = Some (Exc KeyError)
  ∧ run 2 ["ADD Z A"] = Some (Exc KeyError)
  ∧ run 2 ["PRINT Z"] = Some (Exc KeyError).
Proof.
  split; [unfold register_names; set_solver |].
  split; [vm_compute; reflexivity |].
  split; [vm_compute; reflexivity |].
  split; [vm_compute; reflexivity |].
  split.
  { exists (setreg "X" 1 (setreg "P" 1 (setreg "Z" 5 init))).
    split; [vm_compute; reflexivity |].
    change (short_term (setreg "X" 1 (setreg "P" 1 (setreg "Z" 5 init))))
      with (<["X" := 1]> (<["P" := 1]> (<["Z" := 5]> (short_term init)))).
    rewrite !dom_insert_L, init_names. unfold register_names.
    set_solver. }
  repeat split; vm_compute; reflexivity.
Qed.

(** ** The trailing increments *)

(** What [advance] leaves after a jump has written [q] to P. *)
Lemma advance_after_P (s : state) (p x q : Z) :
  getreg "P" s = Val p → getreg "X" s = Val x →
  ∃ s', advance (setreg "P" q s) = Val s'
        ∧ error s' = error s
        ∧ short_term s' !! "P" = Some (q + 1)
        ∧ short_term s' !! "X" = Some (x + 1).
Proof.
  intros Hp Hx. apply getreg_lookup in Hx.
  eexists. split.
  - apply (advance_spec _ q x); simpl.
    + apply lookup_insert_eq.
    + by rewrite lookup_insert_ne.
  - simpl. split; [reflexivity |]. split.
    + rewrite lookup_insert_ne; [| done]. apply lookup_insert_eq.
    + apply lookup_insert_eq.
Qed.

Lemma jump_J (tok : string) (rest : list string) (s : state) (p x off : Z) :
  getreg "P" s = Val p → getreg "X" s = Val x → py_int tok = Val off →
  ∃ s', run_parts ("J" :: tok :: rest) s = Val s'
        ∧ error s' = error s
        ∧ short_term s' !! "P" = Some (p + off + 1)
        ∧ short_term s' !! "X" = Some (x + 1).
Proof.
  intros Hp Hx Hoff. unfold run_parts, dispatch. simpl.
  rewrite Hp. simpl. rewrite Hoff. simpl.
  by apply (advance_after_P s p).
Qed.

Lemma jump_JR (r : string) (rest : list string) (s : state) (p x v : Z) :
  getreg "P" s = Val p → getreg "X" s = Val x → getreg r s = Val v →
  ∃ s', run_parts ("JR" :: r :: rest) s = Val s'
        ∧ error s' = error s
        ∧ short_term s' !! "P" = Some (p + v + 1)
        ∧ short_term s' !! "X" = Some (x + 1).
Proof.
  intros Hp Hx Hv. unfold run_parts, dispatch. simpl.
  rewrite Hp. simpl. rewrite Hv. simpl.
  by apply (advance_after_P s p).
Qed.

Lemma jump_JZ (r tok : string) (rest : list string) (s : state)
    (p x off : Z) :
  getreg "P" s = Val p → getreg "X" s = Val x →
  getreg r s = Val 0 → py_int tok = Val off →
  ∃ s', run_parts ("JZ" :: r :: tok :: rest) s = Val s'
        ∧ error s' = error s
        ∧ short_term s' !! "P" = Some (p + off + 1)
        ∧ short_term s' !! "X" = Some (x + 1).
Proof.
  intros Hp Hx Hv Hoff. unfold run_parts, dispatch. simpl.
  rewrite Hv. simpl. rewrite Hp. simpl. rewrite Hoff. simpl.
  by apply (advance_after_P s p).
Qed.

Lemma jump_JLT (r1 r2 tok : string) (rest : list string) (s : state)
    (p x a b off : Z) :
  getreg "P" s = Val p → getreg "X" s = Val x →
  getreg r1 s = Val a → getreg r2 s = Val b → a < b →
  py_int tok = Val off →
  ∃ s', run_parts ("JLT" :: r1 :: r2 :: tok :: rest) s = Val s'
        ∧ error s' = error s
        ∧ short_term s' !! "P" = Some (p + off + 1)
        ∧ short_term s' !! "X" = Some (x + 1).
Proof.
  intros Hp Hx Ha Hb Hlt Hoff. unfold run_parts, dispatch. simpl.
  rewrite Ha. simpl. rewrite Hb. simpl.
  apply Z.ltb_lt in Hlt. rewrite Hlt.
  rewrite Hp. simpl. rewrite Hoff. simpl.
  by apply (advance_after_P s p).
Qed.

(** C5: an instruction after which the machine is still running (error
    flag clear) went through the whole [if]/[elif] chain without [return],
    and P and X were then each incremented by 1, after the instruction's
    own effect. For the jumps the effect is [P += offset], so a taken J,
    JR, JZ or JLT leaves P at its old value plus the offset plus 1. *)
Theorem post_step_increment :
  (∀ parts s s',
     run_parts parts s = Val s' → error s' = false →
     ∃ s1 p x,
       dispatch parts s = Val (Fall s1)
       ∧ short_term s1 !! "P" = Some p
       ∧ short_term s1 !! "X" = Some x
       ∧ s' = setreg "X" (x + 1) (setreg "P" (p + 1) s1))
  ∧ (∀ tok rest s p x off,
       getreg "P" s = Val p → getreg "X" s = Val x →
       py_int tok = Val off →
       ∃ s', run_parts ("J" :: tok :: rest) s = Val s'
             ∧ error s' = error s
             ∧ short_term s' !! "P" = Some (p + off + 1)
             ∧ short_term s' !! "X" = Some (x + 1))
  ∧ (∀ r rest s p x v,
       getreg "P" s = Val p → getreg "X" s = Val x →
       getreg r s = Val v →
       ∃ s', run_parts ("JR" :: r :: rest) s = Val s'
             ∧ error s' = error s
             ∧ short_term s' !! "P" = Some (p + v + 1)
             ∧ short_term s' !! "X" = Some (x + 1))
  ∧ (∀ r tok rest s p x off,
       getreg "P" s = Val p → getreg "X" s = Val x →
       getreg r s = Val 0 → py_int tok = Val off →
       ∃ s', run_parts ("JZ" :: r :: tok :: rest) s = Val s'
             ∧ error s' = error s
             ∧ short_term s' !! "P" = Some (p + off + 1)
             ∧ short_term s' !! "X" = Some (x + 1))
  ∧ (∀ r1 r2 tok rest s p x a b off,
       getreg "P" s = Val p → getreg "X" s = Val x →
       getreg r1 s = Val a → getreg r2 s = Val b → a < b →
       py_int tok = Val off →
       ∃ s', run_parts ("JLT" :: r1 :: r2 :: tok :: rest) s = Val s'
             ∧ error s' = error s
             ∧ short_term s' !! "P" = Some (p + off + 1)
             ∧ short_term s' !! "X" = Some (x + 1)).
Proof.
  split; [| split; [| split; [| split]]].
  - intros parts s s' Hrun Herr. unfold run_parts in Hrun.
    destruct (dispatch parts s) as [[s1 | s1] | e] eqn:Hd; simpl in Hrun.
    + destruct (advance_inv _ _ Hrun) as (p & x & Hp & Hx & ->).
      by exists s1, p, x.
    + pose proof (dispatch_Return_error _ _ _ Hd) as Ht.
      simplify_eq. congruence.
    + discriminate Hrun.
  - intros. by eapply jump_J.
  - intros. by eapply jump_JR.
  - intros. by eapply jump_JZ.
  - intros. by eapply jump_JLT.
Qed.

Lemma post_step_increment_witness :
  getreg "P" init = Val 0 ∧ getreg "X" init = Val 0
  ∧ py_int "-1" = Val (-1)
  ∧ ∃ s', run_parts ["J"; "-1"] init = Val s'
          ∧ error s' = error init
          ∧ short_term s' !! "P" = Some (0 + -1 + 1)
          ∧ short_term s' !! "X" = Some (0 + 1).
Proof.
  assert (getreg "P" init = Val 0) as Hp by reflexivity.
  assert (getreg "X" init = Val 0) as Hx by reflexivity.
  assert (py_int "-1" = Val (-1)) as Hoff by reflexivity.
  split; [exact Hp |]. split; [exact Hx |]. split; [exact Hoff |].
  exact (proj1 (proj2 post_step_increment) "-1" [] init 0 0 (-1) Hp Hx Hoff).
Defined.

(** ** Division *)

Lemma div_dispatch (r1 r2 : string) (rest : list string) (s : state)
    (a b : Z) :
  getreg r1 s = Val a → getreg r2 s = Val b → b ≠ 0 →
  dispatch ("DIV" :: r1 :: r2 :: rest) s
  = Val (if overflows (a / b)
         then Return (fault (setreg r1 (a / b) s))
         else Fall (setreg r1 (a / b) s)).
Proof.
  intros Ha Hb Hnz. unfold dispatch. simpl. rewrite Hb. simpl.
  apply Z.eqb_neq in Hnz. rewrite Hnz. rewrite Ha. simpl.
  rewrite getreg_setreg. simpl. by destruct (overflows (a / b)).
Qed.

(** C6: DIV writes the floor of the rational quotient of the two register
    values: with a dividend within the bound and a nonzero divisor the
    instruction does not fault and the destination receives
    [floor (a / b)]; -7 divided by 2 gives -4, and the program
    LOADI A -7; LOADI B 2; DIV A B; PRINT A prints -4. *)
Theorem div_is_floor_division (r1 r2 : string) (rest : list string)
    (s : state) (a b : Z) :
  getreg r1 s = Val a → getreg r2 s = Val b →
  Z.abs a ≤ limit → b ≠ 0 →
  dispatch ("DIV" :: r1 :: r2 :: rest) s
  = Val (Fall (setreg r1 (Qfloor (inject_Z a / inject_Z b)) s))
  ∧ Qfloor (inject_Z (-7) / inject_Z 2) = -4
  ∧ final_output (run 5 ["LOADI A -7"; "LOADI B 2"; "DIV A B"; "PRINT A"])
    = Some ([Number (-4)], false).
Proof.
  intros Ha Hb Hla Hnz. split; [| split].
  - rewrite (div_dispatch r1 r2 rest s a b Ha Hb Hnz).
    rewrite div_Qfloor by exact Hnz.
    assert (overflows (a / b) = false) as ->; [| reflexivity].
    apply overflows_false. pose proof (abs_div_le a b Hnz). lia.
  - reflexivity.
  - vm_compute. reflexivity.
Qed.

Lemma div_is_floor_division_witness :
  getreg "A" (setreg "B" 2 (setreg "A" (-7) init)) = Val (-7)
  ∧ getreg "B" (setreg "B" 2 (setreg "A" (-7) init)) = Val 2
  ∧ dispatch ["DIV"; "A"; "B"] (setreg "B" 2 (setreg "A" (-7) init))
    = Val (Fall (setreg "A" (Qfloor (inject_Z (-7) / inject_Z 2))
                   (setreg "B" 2 (setreg "A" (-7) init)))).
Proof.
  assert (getreg "A" (setreg "B" 2 (setreg "A" (-7) init)) = Val (-7))
    as Ha by reflexivity.
  assert (getreg "B" (setreg "B" 2 (setreg "A" (-7) init)) = Val 2)
    as Hb by reflexivity.
  split; [exact Ha |]. split; [exact Hb |].
  refine (proj1 (div_is_floor_division "A" "B" [] _ (-7) 2 Ha Hb _ _)).
  - unfold limit. simpl. lia.
  - lia.
Defined.

(** ** The overflow bound *)

(** C8: the check is [abs(value) > 2**42], strictly: LOADI of exactly
    2^42 stores the value without a fault, LOADI of 2^42 + 1 sets the error
    flag, prints the diagnostic and leaves the register at its old value. *)
Theorem loadi_bound_is_strict :
  overflows limit = false
  ∧ overflows (limit + 1) = true
  ∧ final_reg "A" (run 2 ["LOADI A 4398046511104"]) = Some limit
  ∧ final_output (run 2 ["LOADI A 4398046511104"]) = Some ([], false)
  ∧ final_output (run 2 ["LOADI A 4398046511105"])
    = Some ([diagnostic], true)
  ∧ final_reg "A" (run 2 ["LOADI A 4398046511105"]) = Some 0.
Proof.
  repeat split; vm_compute; reflexivity.
Qed.

(** ** Behaviour at the edges of the checks *)

(** A negative index within the list length denotes a position counted
    from the end. *)
Lemma py_setitem_negative {A : Type} (l : list A) (i : Z) (v : A) :
  - Z.of_nat (length l) ≤ i < 0 →
  py_setitem l i v = Val (<[Z.to_nat (i + Z.of_nat (length l)) := v]> l).
Proof.
  intros [Hlo Hhi]. unfold py_setitem, py_pos.
  assert ((i <? 0) = true) as -> by (apply Z.ltb_lt; lia).
  assert ((0 <=? i + Z.of_nat (length l))
          && (i + Z.of_nat (length l) <? Z.of_nat (length l)) = true) as ->
    by (apply andb_true_iff; split; [apply Z.leb_le | apply Z.ltb_lt]; lia).
  reflexivity.
Qed.

(** An index at or beyond the list length raises. *)
Lemma py_setitem_beyond {A : Type} (l : list A) (i : Z) (v : A) :
  Z.of_nat (length l) ≤ i → py_setitem l i v = Exc IndexError.
Proof.
  intros Hi. unfold py_setitem, py_pos.
  assert ((i <? 0) = false) as -> by (apply Z.ltb_ge; lia).
  assert ((i <? Z.of_nat (length l)) = false) as ->
    by (apply Z.ltb_ge; lia).
  by rewrite andb_false_r.
Qed.

(** ADDI with an immediate within the bound adds it, whatever the sum. *)
Lemma addi_dispatch (r tok : string) (rest : list string) (s : state)
    (a v : Z) :
  py_int tok = Val v → overflows v = false → getreg r s = Val a →
  dispatch ("ADDI" :: r :: tok :: rest) s = Val (Fall (setreg r (a + v) s)).
Proof.
  intros Hv Ho Ha. unfold dispatch. simpl. rewrite Hv. simpl. rewrite Ho.
  unfold addreg. rewrite Ha. reflexivity.
Qed.

(** DIV by a zero register: the fault is followed by the increments. *)
Lemma div_zero_falls_through (r1 r2 : string) (rest : list string)
    (s : state) (p x : Z) :
  getreg r2 s = Val 0 → getreg "P" s = Val p → getreg "X" s = Val x →
  run_parts ("DIV" :: r1 :: r2 :: rest) s
  = Val (setreg "X" (x + 1) (setreg "P" (p + 1) (fault s))).
Proof.
  intros Hb Hp Hx. unfold run_parts, dispatch. simpl. rewrite Hb. simpl.
  apply advance_spec; simpl; by apply getreg_lookup.
Qed.

(** C1 on the code: the store instructions do not check the index.
    Python list indexing takes the indices -2048 .. -1 as positions
    counted from the end, so STOREA A -1 (and STORE with A = -1) writes
    cell 2047 and the run goes on without any diagnostic; an index of 2048
    raises the uncaught IndexError, which ends the interpreter without the
    error flag or the diagnostic. STOREA A 2047 succeeds. *)
Theorem storea_index_unchecked :
  final_cell 2047 (run 3 ["LOADI A 7"; "STOREA A -1"]) = Some 7
  ∧ final_output (run 3 ["LOADI A 7"; "STOREA A -1"]) = Some ([], false)
  ∧ final_output
      (run 5 ["LOADI A 7"; "STOREA A -1"; "LOADA B 2047"; "PRINT B"])
    = Some ([Number 7], false)
  ∧ final_cell 2047 (run 3 ["LOADI A -1"; "STORE A"]) = Some (-1)
  ∧ final_output (run 3 ["LOADI A -1"; "STORE A"]) = Some ([], false)
  ∧ run 3 ["LOADI A 7"; "STOREA A 2048"] = Some (Exc IndexError)
  ∧ run 3 ["LOADI A 2048"; "STORE A"] = Some (Exc IndexError)
  ∧ final_cell 2047 (run 3 ["LOADI A 7"; "STOREA A 2047"]) = Some 7
  ∧ final_output (run 3 ["LOADI A 7"; "STOREA A 2047"]) = Some ([], false).
Proof.
  repeat split; vm_compute; reflexivity.
Qed.

(** C2 on the code: ADDI checks its immediate operand only. Adding 2^42
    to a register that holds 2^42 leaves 2^43 in it, with no fault; the
    same sum computed by ADD is reported as an overflow. *)
Theorem addi_result_unchecked :
  final_reg "A" (run 3 ["LOADI A 4398046511104"; "ADDI A 4398046511104"])
  = Some (2 * limit)
  ∧ final_output
      (run 3 ["LOADI A 4398046511104"; "ADDI A 4398046511104"])
    = Some ([], false)
  ∧ overflows (2 * limit) = true
  ∧ final_output
      (run 4 ["LOADI A 4398046511104"; "LOADI B 4398046511104"; "ADD A B"])
    = Some ([diagnostic], true).
Proof.
  repeat split; vm_compute; reflexivity.
Qed.

(** C3 on the code: the zero-divisor branch of DIV sets the error flag and
    prints the diagnostic but has no [return], so the trailing increments
    run: after LOADI A 100; LOADI B 0; DIV A B both P and X are 3, not 2.
    The other fault paths return at once: after a faulting LOADI in the
    same position P and X are still 2. *)
Theorem div_by_zero_advances :
  final_output (run 4 ["LOADI A 100"; "LOADI B 0"; "DIV A B"])
  = Some ([diagnostic], true)
  ∧ final_reg "P" (run 4 ["LOADI A 100"; "LOADI B 0"; "DIV A B"]) = Some 3
  ∧ final_reg "X" (run 4 ["LOADI A 100"; "LOADI B 0"; "DIV A B"]) = Some 3
  ∧ final_output
      (run 4 ["LOADI A 100"; "LOADI B 0"; "LOADI A 4398046511105"])
    = Some ([diagnostic], true)
  ∧ final_reg "P"
      (run 4 ["LOADI A 100"; "LOADI B 0"; "LOADI A 4398046511105"])
    = Some 2
  ∧ final_reg "X"
      (run 4 ["LOADI A 100"; "LOADI B 0"; "LOADI A 4398046511105"])
    = Some 2.
Proof.
  repeat split; vm_compute; reflexivity.
Qed.

(** ** Where the overflow check sits *)











(** ** The fetch loop *)

(** A pass that dispatches: P is a valid position below 10000, the step
    counter is within its ceiling and the instruction returns. *)
Lemma execute_body_dispatch (s s' : state) (k : nat) (x : Z)
    (command : string) :
  getreg "P" s = Val (Z.of_nat k) → getreg "X" s = Val x →
  error s = false →
  commands s !! k = Some command →
  Z.of_nat k < 10000 → x ≤ 10 ^ 6 →
  parse_command command s = Val s' →
  execute_body s = Val (Continue s').
Proof.
  intros Hp Hx Herr Hcmd Hk Hxle Hrun.
  pose proof (lookup_lt_Some _ _ _ Hcmd) as Hlen.
  unfold execute_body. rewrite Hp. simpl. rewrite Herr.
  assert ((Z.of_nat k <? Z.of_nat (length (commands s))) = true) as ->
    by (apply Z.ltb_lt; lia).
  simpl. rewrite (py_getitem_nat _ _ _ Hcmd). simpl.
  assert ((Z.of_nat k <? 0) = false) as -> by (apply Z.ltb_ge; lia).
  assert ((Z.of_nat k >=? 10000) = false) as ->
    by (rewrite Z.geb_leb; apply Z.leb_gt; lia).
  simpl. rewrite Hx. simpl.
  assert ((x >? 10 ^ 6) = false) as ->
    by (rewrite Z.gtb_ltb; apply Z.ltb_ge; lia).
  by rewrite Hrun.
Qed.

(** A pass stopped by the step-limit guard. *)
Lemma execute_body_step_limit (s : state) (k : nat) (x : Z)
    (command : string) :
  getreg "P" s = Val (Z.of_nat k) → getreg "X" s = Val x →
  error s = false →
  commands s !! k = Some command →
  Z.of_nat k < 10000 → 10 ^ 6 < x →
  execute_body s = Val (Break (fault s)).
Proof.
  intros Hp Hx Herr Hcmd Hk Hxgt.
  pose proof (lookup_lt_Some _ _ _ Hcmd) as Hlen.
  unfold execute_body. rewrite Hp. simpl. rewrite Herr.
  assert ((Z.of_nat k <? Z.of_nat (length (commands s))) = true) as ->
    by (apply Z.ltb_lt; lia).
  simpl. rewrite (py_getitem_nat _ _ _ Hcmd). simpl.
  assert ((Z.of_nat k <? 0) = false) as -> by (apply Z.ltb_ge; lia).
  assert ((Z.of_nat k >=? 10000) = false) as ->
    by (rewrite Z.geb_leb; apply Z.leb_gt; lia).
  simpl. rewrite Hx. simpl.
  assert ((x >? 10 ^ 6) = true) as ->
    by (rewrite Z.gtb_ltb; apply Z.ltb_lt; lia).
  reflexivity.
Qed.

(** The state a J leaves, spelled out. *)
Lemma jump_J_state (tok : string) (rest : list string) (s : state)
    (p x off : Z) :
  getreg "P" s = Val p → getreg "X" s = Val x → py_int tok = Val off →
  run_parts ("J" :: tok :: rest) s
  = Val (setreg "X" (x + 1)
           (setreg "P" (p + off + 1) (setreg "P" (p + off) s))).
Proof.
  intros Hp Hx Hoff. unfold run_parts, dispatch. simpl.
  rewrite Hp. simpl. rewrite Hoff. simpl.
  apply advance_spec; simpl.
  - apply lookup_insert_eq.
  - rewrite lookup_insert_ne; [| done]. by apply getreg_lookup.
Qed.

Section TightLoop.

(** A program whose first line is [J -1]. *)
Variable rest : list string.

(** One pass: the offset -1 and the trailing increment cancel. *)
Lemma spinning_pass (x : Z) (s : state) :
  spinning rest x s → x ≤ 10 ^ 6 →
  ∃ s', execute_body s = Val (Continue s') ∧ spinning rest (x + 1) s'.
Proof.
  intros (Hc & He & Ho & Hp & Hx) Hle.
  pose proof (jump_J_state "-1" [] s 0 x (-1) Hp Hx eq_refl) as Hrun.
  eexists. split.
  - apply (execute_body_dispatch s _ 0 x "J -1"); try done.
    by rewrite Hc.
  - unfold spinning. simpl. repeat split; try done.
    + unfold getreg. simpl. rewrite lookup_insert_ne; [| done].
      by rewrite lookup_insert_eq.
    + apply getreg_setreg.
Qed.

Lemma spinning_stop (x : Z) (s : state) :
  spinning rest x s → 10 ^ 6 < x →
  execute_body s = Val (Break (fault s)).
Proof.
  intros (Hc & He & Ho & Hp & Hx) Hgt.
  apply (execute_body_step_limit s 0 x "J -1"); try done.
  by rewrite Hc.
Qed.

Lemma spinning_run (n : nat) :
  ∀ (x : Z) (s : state),
    spinning rest x s → x + Z.of_nat n = 10 ^ 6 + 1 →
    ∃ s', execute (S n) s = Some (Val (fault s'))
          ∧ spinning rest (10 ^ 6 + 1) s'.
Proof.
  induction n as [| n IH]; intros x s Hs Hx.
  - assert (x = 10 ^ 6 + 1) as -> by lia.
    exists s. split; [| exact Hs].
    simpl. rewrite (spinning_stop _ s Hs); [reflexivity | lia].
  - destruct (spinning_pass x s Hs) as (s1 & Hbody & Hs1); [lia |].
    destruct (IH (x + 1) s1 Hs1) as (s' & Hexec & Hs'); [lia |].
    exists s'. split; [| exact Hs'].
    change (execute (S (S n)) s) with
      (match execute_body s with
       | Exc e => Some (Exc e)
       | Val (Break s2) => Some (Val s2)
       | Val (Continue s2) => execute (S n) s2
       end).
    rewrite Hbody. exact Hexec.
Qed.

Lemma spinning_start :
  spinning rest 0 (load_commands_from_user ("J -1" :: rest) init).
Proof. by repeat split. Qed.

End TightLoop.

(** C9: a program that starts with [J -1] re-executes that instruction
    with P back at 0 after every pass; the loop ends after 10^6 + 1 passes,
    when the guard finds X above 10^6, with the error flag set and the
    diagnostic as the only output. *)
Theorem tight_loop_hits_step_limit (rest : list string) :
  ∃ fuel s',
    run fuel ("J -1" :: rest) = Some (Val s')
    ∧ error s' = true
    ∧ stdout s' = [diagnostic]
    ∧ short_term s' !! "P" = Some 0
    ∧ short_term s' !! "X" = Some (10 ^ 6 + 1).
Proof.
  destruct (spinning_run rest (Z.to_nat (10 ^ 6 + 1)) 0
              (load_commands_from_user ("J -1" :: rest) init)
              (spinning_start rest))
    as (s' & Hexec & Hc & He & Ho & Hp & Hx); [lia |].
  exists (S (Z.to_nat (10 ^ 6 + 1))), (fault s').
  split; [exact Hexec |]. split; [reflexivity |].
  split; [simpl; by rewrite Ho |].
  split; by apply getreg_lookup.
Qed.

(** ** A loop the step counter does not bound *)

Lemma loadi_state (r tok : string) (rest : list string) (s : state)
    (v : Z) :
  py_int tok = Val v → overflows v = false →
  run_parts ("LOADI" :: r :: tok :: rest) s = advance (setreg r v s).
Proof.
  intros Hv Ho. unfold run_parts, dispatch. simpl.
  rewrite Hv. simpl. by rewrite Ho.
Qed.

Lemma at_reset_pass (s : state) :
  at_reset s → ∃ s', execute_body s = Val (Continue s') ∧ at_jump s'.
Proof.
  intros (Hc & He & Ho & Hp & x & Hx & Hle).
  assert (parse_command "LOADI X 0" s
          = Val (setreg "X" (0 + 1) (setreg "P" (0 + 1) (setreg "X" 0 s))))
    as Hrun.
  { unfold parse_command.
    change (split "LOADI X 0") with ["LOADI"; "X"; "0"].
    rewrite (loadi_state "X" "0" [] s 0); [| reflexivity | reflexivity].
    apply advance_spec; simpl.
    - rewrite lookup_insert_ne; [| done]. by apply getreg_lookup.
    - apply lookup_insert_eq. }
  eexists. split.
  - apply (execute_body_dispatch s _ 0 x "LOADI X 0"); try done.
    + by rewrite Hc.
    + lia.
  - unfold at_jump. simpl. repeat split; try done.
    + unfold getreg. simpl. rewrite lookup_insert_ne; [| done].
      by rewrite lookup_insert_eq.
    + apply getreg_setreg.
Qed.

Lemma at_jump_pass (s : state) :
  at_jump s → ∃ s', execute_body s = Val (Continue s') ∧ at_reset s'.
Proof.
  intros (Hc & He & Ho & Hp & Hx).
  pose proof (jump_J_state "-2" [] s 1 1 (-2) Hp Hx eq_refl) as Hrun.
  eexists. split.
  - apply (execute_body_dispatch s _ 1 1 "J -2"); try done.
    by rewrite Hc.
  - unfold at_reset. simpl. repeat split; try done.
    + unfold getreg. simpl. rewrite lookup_insert_ne; [| done].
      by rewrite lookup_insert_eq.
    + exists 2. split; [apply getreg_setreg | lia].
Qed.

Lemma reset_loop_start : at_reset (load_commands_from_user reset_loop init).
Proof.
  unfold at_reset. repeat split; try done. exists 0. by split.
Qed.

(** From either state the loop makes any number of passes. *)
Lemma reset_loop_passes (n : nat) :
  ∀ s, at_reset s ∨ at_jump s →
       execute n s = None
       ∧ ∃ s', passes n s = Some s' ∧ (at_reset s' ∨ at_jump s').
Proof.
  induction n as [| n IH]; intros s Hs.
  - split; [reflexivity |]. by exists s.
  - assert (∃ s1, execute_body s = Val (Continue s1)
                  ∧ (at_reset s1 ∨ at_jump s1)) as (s1 & Hbody & Hs1).
    { destruct Hs as [Hs | Hs].
      - destruct (at_reset_pass s Hs) as (s1 & Hb & H1). eauto.
      - destruct (at_jump_pass s Hs) as (s1 & Hb & H1). eauto. }
    simpl. rewrite Hbody. by apply IH.
Qed.

(** C10: on LOADI X 0; J -2 the loop never ends. Whatever the number of
    passes allowed, the run is still going on when they are used up, each
    pass having dispatched one instruction, without an error flag and
    without any output, the step counter never above 2. *)
Theorem step_limit_does_not_bound_runs :
  ∀ n : nat,
    run n reset_loop = None
    ∧ ∃ s x, passes n (load_commands_from_user reset_loop init) = Some s
             ∧ error s = false
             ∧ stdout s = []
             ∧ short_term s !! "X" = Some x
             ∧ x ≤ 2.
Proof.
  intros n.
  destruct (reset_loop_passes n (load_commands_from_user reset_loop init))
    as (Hnone & s & Hpass & Hs); [left; apply reset_loop_start |].
  split; [exact Hnone |].
  destruct Hs as [(Hc & He & Ho & Hp & x & Hx & Hle)
                 | (Hc & He & Ho & Hp & Hx)].
  - exists s, x. repeat split; try done. by apply getreg_lookup.
  - exists s, 1. repeat split; try done. by apply getreg_lookup.
Qed.

(** ** What execution leaves alone *)

Lemma py_setitem_length {A : Type} (l l' : list A) (i : Z) (v : A) :
  py_setitem l i v = Val l' → length l' = length l.
Proof.
  unfold py_setitem. intros H. case_match; simplify_eq.
  apply length_insert.
Qed.

Lemma py_setitem_Forall {A : Type} (P : A → Prop) (l l' : list A) (i : Z)
    (v : A) :
  py_setitem l i v = Val l' → Forall P l → P v → Forall P l'.
Proof.
  unfold py_setitem. intros H Hl Hv. case_match; simplify_eq.
  by apply Forall_insert.
Qed.

(** A branch of the chain leaves memory as it is, or it is the store of
    STOREA or STORE: one item assignment of a value that passed the
    overflow check. *)
Lemma dispatch_memory (parts : list string) (s : state) (f : flow) :
  dispatch parts s = Val f →
  memory (flow_state f) = memory s
  ∨ ∃ i v,
      (parts !! 0%nat = Some "STOREA" ∨ parts !! 0%nat = Some "STORE")
      ∧ overflows v = false
      ∧ py_setitem (memory s) i v = Val (memory (flow_state f)).
Proof.
  intros H. unfold dispatch, part in H.
  res_cases H; try (left; reflexivity);
    repeat match goal with
      | E : String.eqb _ _ = true |- _ =>
          pose proof (proj1 (String.eqb_eq _ _) E); clear E; subst
      end;
    right; eauto 10.
Qed.

Lemma run_parts_memory (parts : list string) (s s' : state) :
  run_parts parts s = Val s' →
  memory s' = memory s
  ∨ ∃ i v,
      (parts !! 0%nat = Some "STOREA" ∨ parts !! 0%nat = Some "STORE")
      ∧ Z.abs v ≤ limit
      ∧ py_setitem (memory s) i v = Val (memory s').
Proof.
  intros H. unfold run_parts in H.
  destruct (dispatch parts s) as [f | e] eqn:Hd; [| discriminate H].
  pose proof (dispatch_memory _ _ _ Hd) as Hm. simpl in H.
  assert (memory s' = memory (flow_state f)) as ->.
  { destruct f as [s1 | s1]; simpl in *.
    - by destruct (advance_inv _ _ H) as (p & x & _ & _ & ->).
    - by simplify_eq. }
  destruct Hm as [Hm | (i & v & Hop & Ho & Hset)]; [by left |].
  right. exists i, v. split; [exact Hop |].
  split; [by apply overflows_false | exact Hset].
Qed.

(** X1: an instruction never changes the command list, and it changes
    memory only if it is a STOREA or a STORE, and then by one item
    assignment of a value whose magnitude is at most 2^42. *)
Theorem only_stores_write_memory (parts : list string) (s s' : state) :
  run_parts parts s = Val s' →
  commands s' = commands s
  ∧ (memory s' = memory s
     ∨ ∃ i v,
         (parts !! 0%nat = Some "STOREA" ∨ parts !! 0%nat = Some "STORE")
         ∧ Z.abs v ≤ limit
         ∧ py_setitem (memory s) i v = Val (memory s')).
Proof.
  intros H. split; [by eapply run_parts_commands | by apply run_parts_memory].
Qed.

Lemma only_stores_write_memory_witness :
  ∃ s', run_parts ["STOREA"; "A"; "5"] (setreg "A" 9 init) = Val s'
        ∧ commands s' = commands (setreg "A" 9 init)
        ∧ (memory s' = memory (setreg "A" 9 init)
           ∨ ∃ i v,
               (["STOREA"; "A"; "5"] !! 0%nat = Some "STOREA"
                ∨ ["STOREA"; "A"; "5"] !! 0%nat = Some "STORE")
               ∧ Z.abs v ≤ limit
               ∧ py_setitem (memory (setreg "A" 9 init)) i v
                 = Val (memory s')).
Proof.
  assert (∃ s', run_parts ["STOREA"; "A"; "5"] (setreg "A" 9 init) = Val s')
    as [s' Hrun] by (eexists; vm_compute; reflexivity).
  exists s'. split; [exact Hrun |].
  exact (only_stores_write_memory _ _ _ Hrun).
Defined.

(** ** Invariants of a run *)

Section Invariant.

(** A property that every dispatched instruction and the two guards of
    [execute] preserve. *)
Variable I : state → Prop.

Hypothesis I_step :
  ∀ s c s', I s → error s = false → c ∈ commands s →
            parse_command c s = Val s' → I s'.

Hypothesis I_fault : ∀ s, I s → error s = false → I (fault s).

Lemma execute_body_invariant (s : state) (l : loop) :
  I s → execute_body s = Val l → I (loop_state l).
Proof.
  intros HI H. unfold execute_body in H. unfold mbind, res_bind in H.
  repeat (case_match; simplify_eq/=); try done;
    match goal with
    | Hc : _ && negb (error s) = true |- _ =>
        apply andb_true_iff in Hc as [_ Hc]; apply negb_true_iff in Hc
    end.
  - by apply I_fault.
  - by apply I_fault.
  - eapply I_step; [exact HI | done | | done].
    by eapply py_getitem_elem.
Qed.

Lemma execute_invariant (fuel : nat) :
  ∀ s s', I s → execute fuel s = Some (Val s') → I s'.
Proof.
  induction fuel as [| fuel IH]; intros s s' HI H; [discriminate H |].
  simpl in H.
  destruct (execute_body s) as [[s1 | s1] | e] eqn:Hbody;
    [| | discriminate H].
  - apply (IH s1 s'); [| exact H].
    exact (execute_body_invariant _ _ HI Hbody).
  - simplify_eq. exact (execute_body_invariant _ _ HI Hbody).
Qed.

End Invariant.

Lemma memory_ok_init (lines : list string) :
  memory_ok (load_commands_from_user lines init).
Proof.
  split; [reflexivity |].
  change (memory (load_commands_from_user lines init))
    with (replicate memory_size 0).
  apply Forall_replicate. unfold limit. simpl. lia.
Qed.

Lemma memory_ok_step (parts : list string) (s s' : state) :
  memory_ok s → run_parts parts s = Val s' → memory_ok s'.
Proof.
  intros [Hlen Hall] H.
  destruct (run_parts_memory _ _ _ H) as [Hm | (i & v & _ & Hv & Hset)].
  - unfold memory_ok. by rewrite Hm.
  - split.
    + by rewrite (py_setitem_length _ _ _ _ Hset).
    + by apply (py_setitem_Forall _ _ _ _ _ Hset).
Qed.

(** X2: however a run ends, memory still has its 2048 cells, every cell
    holds a value of magnitude at most 2^42 (registers can exceed the bound,
    memory cannot), and the command list is the program that was loaded. *)
Theorem memory_stays_in_bounds (fuel : nat) (lines : list string)
    (s' : state) :
  run fuel lines = Some (Val s') →
  length (memory s') = 2048%nat
  ∧ Forall (λ v, Z.abs v ≤ limit) (memory s')
  ∧ commands s' = lines.
Proof.
  intros H. unfold run in H.
  assert (memory_ok s' ∧ commands s' = lines) as [[Hlen Hall] Hc]; [| done].
  refine (execute_invariant
            (λ s, memory_ok s ∧ commands s = lines) _ _ fuel _ s' _ H).
  - intros s c s1 [Hok Hc] _ _ Hrun. split.
    + exact (memory_ok_step _ _ _ Hok Hrun).
    + by rewrite (run_parts_commands _ _ _ Hrun).
  - by intros s [Hok Hc] _.
  - split; [apply memory_ok_init | reflexivity].
Qed.

Lemma memory_stays_in_bounds_witness :
  ∃ s', run 3 ["LOADI A 7"; "STOREA A -1"] = Some (Val s')
        ∧ length (memory s') = 2048%nat
        ∧ Forall (λ v, Z.abs v ≤ limit) (memory s')
        ∧ commands s' = ["LOADI A 7"; "STOREA A -1"].
Proof.
  assert (∃ s', run 3 ["LOADI A 7"; "STOREA A -1"] = Some (Val s'))
    as [s' Hrun] by (eexists; vm_compute; reflexivity).
  exists s'. split; [exact Hrun |].
  exact (memory_stays_in_bounds _ _ _ Hrun).
Defined.

(** ** The output stream and the error flag *)

Lemma dispatch_output (parts : list string) (s : state) (f : flow) :
  error s = false → dispatch parts s = Val f →
  (error (flow_state f) = false
   ∧ (stdout (flow_state f) = stdout s
      ∨ ∃ z, stdout (flow_state f) = stdout s ++ [Number z]))
  ∨ (error (flow_state f) = true
     ∧ ∃ m, is_message m ∧ stdout (flow_state f) = stdout s ++ [m]).
Proof.
  intros Herr H. unfold dispatch in H. unfold is_message.
  res_cases H;
    first [ by left; split; [| left]
          | by left; split; [| right; eexists]
          | by right; split; [| eexists; split; [left |]]
          | by right; split; [| eexists; split; [right |]] ].
Qed.

Lemma run_parts_output (parts : list string) (s s' : state) :
  error s = false → run_parts parts s = Val s' →
  (error s' = false
   ∧ (stdout s' = stdout s ∨ ∃ z, stdout s' = stdout s ++ [Number z]))
  ∨ (error s' = true
     ∧ ∃ m, is_message m ∧ stdout s' = stdout s ++ [m]).
Proof.
  intros Herr H. unfold run_parts in H.
  destruct (dispatch parts s) as [f | e] eqn:Hd; [| discriminate H].
  pose proof (dispatch_output _ _ _ Herr Hd) as Ho. simpl in H.
  destruct f as [s1 | s1]; simpl in *.
  - by destruct (advance_inv _ _ H) as (p & x & _ & _ & ->).
  - by simplify_eq.
Qed.

Lemma output_ok_step (c : string) (s s' : state) :
  output_ok s → error s = false → parse_command c s = Val s' →
  output_ok s'.
Proof.
  intros [[_ Hnum] | [Ht _]] Herr H; [| congruence].
  destruct (run_parts_output _ _ _ Herr H)
    as [[He [Ho | (z & Ho)]] | [He (m & Hm & Ho)]].
  - left. by rewrite Ho.
  - left. split; [exact He |]. rewrite Ho. apply Forall_app.
    split; [exact Hnum |]. apply Forall_singleton. by exists z.
  - right. split; [exact He |]. by exists (stdout s), m.
Qed.

Lemma output_ok_fault (s : state) :
  output_ok s → error s = false → output_ok (fault s).
Proof.
  intros [[_ Hnum] | [Ht _]] Herr; [| congruence].
  right. split; [reflexivity |].
  exists (stdout s), diagnostic. repeat split; [exact Hnum | by left].
Qed.

(** X3: the output of a run that ended consists of printed numbers only
    when the error flag is clear, and of printed numbers followed by
    exactly one message, the fault diagnostic or the HALT message, when it
    is set: a fault or HALT prints one line and nothing is printed after
    it. *)
Theorem output_is_numbers_then_one_message (fuel : nat)
    (lines : list string) (s' : state) :
  run fuel lines = Some (Val s') → output_ok s'.
Proof.
  intros H. unfold run in H.
  refine (execute_invariant output_ok _ _ fuel _ s' _ H).
  - intros s c s1 Hok Herr _ Hrun. exact (output_ok_step c s s1 Hok Herr Hrun).
  - exact output_ok_fault.
  - left. split; [reflexivity | apply Forall_nil_2].
Qed.

Lemma output_is_numbers_then_one_message_witness :
  ∃ s', run 4 ["LOADI A 5"; "PRINT A"; "HALT"; "PRINT A"] = Some (Val s')
        ∧ output_ok s'.
Proof.
  assert (∃ s', run 4 ["LOADI A 5"; "PRINT A"; "HALT"; "PRINT A"]
                = Some (Val s'))
    as [s' Hrun] by (eexists; vm_compute; reflexivity).
  exists s'. split; [exact Hrun |].
  exact (output_is_numbers_then_one_message _ _ _ Hrun).
Defined.

Lemma dispatch_error_kept (parts : list string) (s : state) (f : flow) :
  error s = true → dispatch parts s = Val f → error (flow_state f) = true.
Proof.
  intros Herr H. unfold dispatch in H. res_cases H; done.
Qed.

(** X4: no instruction clears the error flag: whatever is executed on a
    machine whose flag is set, the flag is still set afterwards. *)
Theorem error_flag_never_cleared (parts : list string) (s s' : state) :
  error s = true → run_parts parts s = Val s' → error s' = true.
Proof.
  intros Herr H. unfold run_parts in H.
  destruct (dispatch parts s) as [f | e] eqn:Hd; [| discriminate H].
  pose proof (dispatch_error_kept _ _ _ Herr Hd) as He. simpl in H.
  destruct f as [s1 | s1]; simpl in *.
  - by destruct (advance_inv _ _ H) as (p & x & _ & _ & ->).
  - by simplify_eq.
Qed.

Lemma error_flag_never_cleared_witness :
  error (fault init) = true
  ∧ ∃ s', run_parts ["LOADI"; "A"; "1"] (fault init) = Val s'
          ∧ error s' = true.
Proof.
  assert (error (fault init) = true) as Herr by reflexivity.
  assert (∃ s', run_parts ["LOADI"; "A"; "1"] (fault init) = Val s')
    as [s' Hrun] by (eexists; vm_compute; reflexivity).
  split; [exact Herr |]. exists s'. split; [exact Hrun |].
  exact (error_flag_never_cleared _ _ _ Herr Hrun).
Defined.

(** ** Where the loop stops *)

Lemma execute_body_terminal (s : state) (p : Z) :
  getreg "P" s = Val p →
  error s = true ∨ Z.of_nat (length (commands s)) ≤ p →
  execute_body s = Val (Break s).
Proof.
  intros Hp Hterm. unfold execute_body. rewrite Hp. simpl.
  assert ((p <? Z.of_nat (length (commands s))) && negb (error s) = false)
    as ->; [| reflexivity].
  apply andb_false_iff. destruct Hterm as [He | Hlen].
  - right. by rewrite He.
  - left. by apply Z.ltb_ge.
Qed.

(** X5: a machine whose error flag is set, or whose P is at or beyond the
    end of the program, is terminal: [execute] returns at once, with the
    state as it is and nothing dispatched or printed. *)
Theorem terminal_state_is_left_alone (n : nat) (s : state) (p : Z) :
  getreg "P" s = Val p →
  error s = true ∨ Z.of_nat (length (commands s)) ≤ p →
  execute (S n) s = Some (Val s).
Proof.
  intros Hp Hterm. simpl. by rewrite (execute_body_terminal s p Hp Hterm).
Qed.

Lemma terminal_state_is_left_alone_witness :
  getreg "P" (fault (load_commands_from_user ["PRINT A"] init)) = Val 0
  ∧ execute 5 (fault (load_commands_from_user ["PRINT A"] init))
    = Some (Val (fault (load_commands_from_user ["PRINT A"] init))).
Proof.
  assert (getreg "P" (fault (load_commands_from_user ["PRINT A"] init))
          = Val 0) as Hp by reflexivity.
  split; [exact Hp |].
  apply (terminal_state_is_left_alone 4 _ 0 Hp). by left.
Defined.

(** X6: when the line at P starts with HALT (P a valid position, the step
    counter within its ceiling), the run ends there: the error flag is
    set, "Execution halted" is appended to the output, and registers
    (P and X included), memory and commands are as they were. *)
Theorem halt_ends_the_run (n k : nat) (s : state) (x : Z) (c : string) :
  getreg "P" s = Val (Z.of_nat k) → getreg "X" s = Val x →
  error s = false → commands s !! k = Some c →
  split c !! 0%nat = Some "HALT" →
  Z.of_nat k < 10000 → x ≤ 10 ^ 6 →
  execute (S (S n)) s = Some (Val (print halt_message (set_error s))).
Proof.
  intros Hp Hx Herr Hc Hop Hk Hxle.
  assert (parse_command c s = Val (print halt_message (set_error s)))
    as Hrun.
  { unfold parse_command, run_parts, dispatch, part. rewrite Hop.
    reflexivity. }
  change (execute (S (S n)) s) with
    (match execute_body s with
     | Exc e => Some (Exc e)
     | Val (Break s2) => Some (Val s2)
     | Val (Continue s2) => execute (S n) s2
     end).
  rewrite (execute_body_dispatch s _ k x c Hp Hx Herr Hc Hk Hxle Hrun).
  simpl.
  rewrite (execute_body_terminal _ (Z.of_nat k)); [reflexivity | exact Hp |].
  by left.
Qed.

Lemma halt_ends_the_run_witness :
  execute 3 (load_commands_from_user ["HALT now"; "PRINT A"] init)
  = Some (Val (print halt_message
                 (set_error
                    (load_commands_from_user ["HALT now"; "PRINT A"] init)))).
Proof.
  apply (halt_ends_the_run 1 0 _ 0 "HALT now");
    first [reflexivity | simpl; lia].
Defined.

(** ** Lines that are not instructions *)

(** X7: a line whose first word is none of the seventeen opcodes is not
    rejected: nothing is read, written or printed, no fault is raised, and
    P and X are incremented as after any instruction. The names JMP and
    JMPR of the module docstring are such words. *)
Theorem unknown_opcode_is_skipped (opcode : string) (rest : list string)
    (s : state) :
  known_opcode opcode = false →
  run_parts (opcode :: rest) s = advance s.
Proof.
  intros H. unfold known_opcode in H.
  repeat (apply orb_false_elim in H as [H ?]).
  unfold run_parts, dispatch. simpl.
  repeat match goal with
    | E : String.eqb opcode _ = false |- _ => rewrite E; clear E
    end.
  reflexivity.
Qed.

Lemma unknown_opcode_is_skipped_witness :
  known_opcode "JMP" = false
  ∧ run_parts ["JMP"; "3"] init = advance init.
Proof.
  assert (known_opcode "JMP" = false) as H by reflexivity.
  split; [exact H |].
  exact (unknown_opcode_is_skipped "JMP" ["3"] init H).
Defined.

Lemma split_all_space (c : string) : all_space c = true → split c = [].
Proof.
  unfold split. induction c as [| ch c IH]; intros H; [reflexivity |].
  simpl in H. apply andb_true_iff in H as [Hch Hc].
  simpl. rewrite Hch. simpl. by apply IH.
Qed.

(** X8: an empty line, or a line of white space only, has no first word:
    executing it raises the uncaught IndexError of [parts[0]]. *)
Theorem blank_line_raises (c : string) (s : state) :
  all_space c = true → parse_command c s = Exc IndexError.
Proof.
  intros H. unfold parse_command. by rewrite (split_all_space c H).
Qed.

Lemma blank_line_raises_witness :
  all_space " " = true ∧ parse_command " " init = Exc IndexError.
Proof.
  assert (all_space " " = true) as H by reflexivity.
  split; [exact H |]. exact (blank_line_raises " " init H).
Defined.

(** X9: reading a name that is not a key of the register dictionary
    raises the uncaught KeyError, where assigning to it would create it:
    PRINT, the source of MOVE, the destination of ADD, SUB, MUL and ADDI,
    the register of JR and JZ and the register stored by STOREA. *)
Theorem missing_register_raises (r other tok : string)
    (rest : list string) (s : state) (v : Z) :
  short_term s !! r = None →
  py_int tok = Val v → overflows v = false →
  run_parts ("PRINT" :: r :: rest) s = Exc KeyError
  ∧ run_parts ("MOVE" :: other :: r :: rest) s = Exc KeyError
  ∧ run_parts ("ADD" :: r :: other :: rest) s = Exc KeyError
  ∧ run_parts ("SUB" :: r :: other :: rest) s = Exc KeyError
  ∧ run_parts ("MUL" :: r :: other :: rest) s = Exc KeyError
  ∧ run_parts ("ADDI" :: r :: tok :: rest) s = Exc KeyError
  ∧ run_parts ("STOREA" :: r :: tok :: rest) s = Exc KeyError
  ∧ run_parts ("JR" :: r :: rest) s = Exc KeyError
  ∧ run_parts ("JZ" :: r :: tok :: rest) s = Exc KeyError.
Proof.
  intros Hr Hv Ho.
  assert (getreg r s = Exc KeyError) as Hg by (unfold getreg; by rewrite Hr).
  repeat split; unfold run_parts, dispatch, arith, addreg; simpl;
    rewrite ?Hv; simpl; rewrite ?Ho; rewrite ?Hg; try reflexivity.
  unfold getreg. by destruct (short_term s !! "P").
Qed.

Lemma missing_register_raises_witness :
  short_term init !! "Z" = None ∧ py_int "1" = Val 1
  ∧ run_parts ["PRINT"; "Z"] init = Exc KeyError.
Proof.
  assert (short_term init !! "Z" = None) as Hr by reflexivity.
  assert (py_int "1" = Val 1) as Hv by reflexivity.
  split; [exact Hr |]. split; [exact Hv |].
  exact (proj1 (missing_register_raises "Z" "A" "1" [] init 1 Hr Hv
                  eq_refl)).
Defined.

(** ** The program counter guard *)

Lemma py_getitem_in_range {A : Type} (l : list A) (i : Z) :
  - Z.of_nat (length l) ≤ i < Z.of_nat (length l) →
  ∃ x, py_getitem l i = Val x.
Proof.
  intros [Hlo Hhi]. unfold py_getitem, py_pos.
  set (j := if i <? 0 then i + Z.of_nat (length l) else i).
  assert (0 ≤ j < Z.of_nat (length l)) as [Hj0 Hj1].
  { unfold j. destruct (Z.ltb_spec i 0); lia. }
  assert ((0 <=? j) && (j <? Z.of_nat (length l)) = true) as ->
    by (apply andb_true_iff; split; [apply Z.leb_le | apply Z.ltb_lt]; lia).
  destruct (lookup_lt_is_Some_2 l (Z.to_nat j)) as [x Hx]; [lia |].
  exists x. by rewrite Hx.
Qed.

Lemma py_getitem_out_of_range {A : Type} (l : list A) (i : Z) :
  i < - Z.of_nat (length l) ∨ Z.of_nat (length l) ≤ i →
  py_getitem l i = Exc IndexError.
Proof.
  intros Hi. unfold py_getitem, py_pos.
  set (j := if i <? 0 then i + Z.of_nat (length l) else i).
  assert ((0 <=? j) && (j <? Z.of_nat (length l)) = false) as ->;
    [| reflexivity].
  apply andb_false_iff. unfold j.
  destruct (Z.ltb_spec i 0); [left; apply Z.leb_gt | right; apply Z.ltb_ge];
    lia.
Qed.

(** X10: what a pass of the loop does with an unusual P on a running
    machine. At or beyond the end of the program the loop ends normally.
    A negative P that Python can still use as an index from the end of the
    command list, and a P from 10000 on inside a longer program, end the
    run with the diagnostic. A P further below zero than the program is
    long raises the uncaught IndexError of the fetch, before the guard is
    reached. *)
Theorem program_counter_guard (s : state) (p : Z) :
  getreg "P" s = Val p → error s = false →
  (Z.of_nat (length (commands s)) ≤ p → execute_body s = Val (Break s))
  ∧ (- Z.of_nat (length (commands s)) ≤ p < 0 →
     execute_body s = Val (Break (fault s)))
  ∧ (10000 ≤ p < Z.of_nat (length (commands s)) →
     execute_body s = Val (Break (fault s)))
  ∧ (p < - Z.of_nat (length (commands s)) →
     execute_body s = Exc IndexError).
Proof.
  intros Hp Herr. split; [| split; [| split]].
  - intros Hge. apply (execute_body_terminal s p Hp). by right.
  - intros [Hlo Hhi]. unfold execute_body. rewrite Hp. simpl. rewrite Herr.
    assert ((p <? Z.of_nat (length (commands s))) = true) as ->
      by (apply Z.ltb_lt; lia).
    destruct (py_getitem_in_range (commands s) p) as [c Hc]; [lia |].
    simpl. rewrite Hc. simpl.
    assert ((p <? 0) = true) as -> by (apply Z.ltb_lt; lia).
    reflexivity.
  - intros [Hlo Hhi]. unfold execute_body. rewrite Hp. simpl. rewrite Herr.
    assert ((p <? Z.of_nat (length (commands s))) = true) as ->
      by (apply Z.ltb_lt; lia).
    destruct (py_getitem_in_range (commands s) p) as [c Hc]; [lia |].
    simpl. rewrite Hc. simpl.
    assert ((p >=? 10000) = true) as ->
      by (rewrite Z.geb_leb; apply Z.leb_le; lia).
    by rewrite orb_true_r.
  - intros Hlt. unfold execute_body. rewrite Hp. simpl. rewrite Herr.
    assert ((p <? Z.of_nat (length (commands s))) = true) as ->
      by (apply Z.ltb_lt; lia).
    simpl. rewrite py_getitem_out_of_range; [reflexivity | lia].
Qed.

Lemma program_counter_guard_witness :
  getreg "P" (setreg "P" (-1) (load_commands_from_user ["J -2"] init))
  = Val (-1)
  ∧ execute_body (setreg "P" (-1) (load_commands_from_user ["J -2"] init))
    = Val (Break
             (fault (setreg "P" (-1)
                       (load_commands_from_user ["J -2"] init)))).
Proof.
  assert (getreg "P"
            (setreg "P" (-1) (load_commands_from_user ["J -2"] init))
          = Val (-1)) as Hp by reflexivity.
  split; [exact Hp |].
  apply (proj1 (proj2 (program_counter_guard _ (-1) Hp eq_refl))).
  simpl. lia.
Defined.

(** ** Memory round trips *)

Lemma py_pos_lt (n : nat) (i : Z) (k : nat) :
  py_pos (Z.of_nat n) i = Some k → (k < n)%nat.
Proof.
  unfold py_pos. intros H. case_match; [| discriminate H].
  simplify_eq. apply andb_true_iff in H0 as [H0 H1].
  apply Z.leb_le in H0. apply Z.ltb_lt in H1. lia.
Qed.

Lemma py_setitem_in_range {A : Type} (l : list A) (i : Z) (v : A) :
  - Z.of_nat (length l) ≤ i < Z.of_nat (length l) →
  ∃ l', py_setitem l i v = Val l'.
Proof.
  intros Hi. destruct (py_getitem_in_range l i Hi) as [x Hx].
  unfold py_getitem in Hx. unfold py_setitem.
  destruct (py_pos (Z.of_nat (length l)) i); [eauto | discriminate Hx].
Qed.

(** Reading back through any index that denotes the cell just written. *)
Lemma py_setitem_getitem {A : Type} (l l' : list A) (i j : Z) (v : A) :
  py_setitem l i v = Val l' →
  py_pos (Z.of_nat (length l)) j = py_pos (Z.of_nat (length l)) i →
  py_getitem l' j = Val v.
Proof.
  intros Hset Hj. pose proof (py_setitem_length _ _ _ _ Hset) as Hlen.
  unfold py_setitem in Hset. unfold py_getitem. rewrite Hlen, Hj.
  destruct (py_pos (Z.of_nat (length l)) i) as [k |] eqn:Hk;
    [| discriminate Hset].
  simplify_eq. apply py_pos_lt in Hk.
  by rewrite list_lookup_insert_eq.
Qed.

(** X11: a STOREA that passes its checks followed by a LOADA of the same
    cell gives the stored value back: the index may be anything from -2048
    to 2047, and the cell may be named by the other of its two indices
    ([i] and [i + 2048] are the same cell). *)
Theorem storea_loada_round_trip (r r' tok tok' : string)
    (rest rest' : list string) (s : state) (i j v p x : Z) :
  py_int tok = Val i → py_int tok' = Val j →
  getreg r s = Val v → overflows v = false →
  getreg "P" s = Val p → getreg "X" s = Val x →
  - Z.of_nat (length (memory s)) ≤ i < Z.of_nat (length (memory s)) →
  py_pos (Z.of_nat (length (memory s))) j
  = py_pos (Z.of_nat (length (memory s))) i →
  ∃ s1, run_parts ("STOREA" :: r :: tok :: rest) s = Val s1
        ∧ error s1 = error s
        ∧ dispatch ("LOADA" :: r' :: tok' :: rest') s1
          = Val (Fall (setreg r' v s1)).
Proof.
  intros Hi Hj Hv Ho Hp Hx Hrange Hsame.
  destruct (py_setitem_in_range (memory s) i v Hrange) as [m Hset].
  exists (setreg "X" (x + 1) (setreg "P" (p + 1) (setmem m s))).
  split; [| split; [reflexivity |]].
  - unfold run_parts, dispatch. simpl. rewrite Hi. simpl. rewrite Hv.
    simpl. rewrite Ho, Hset. simpl.
    apply advance_spec; by apply getreg_lookup.
  - unfold dispatch. simpl. rewrite Hj. simpl.
    by rewrite (py_setitem_getitem _ _ i j v Hset Hsame).
Qed.

Lemma storea_loada_round_trip_witness :
  ∃ s1, run_parts ["STOREA"; "A"; "-1"] (setreg "A" 7 init) = Val s1
        ∧ error s1 = error (setreg "A" 7 init)
        ∧ dispatch ["LOADA"; "B"; "2047"] s1 = Val (Fall (setreg "B" 7 s1)).
Proof.
  apply (storea_loada_round_trip "A" "B" "-1" "2047" [] []
           (setreg "A" 7 init) (-1) 2047 7 0 0);
    first [reflexivity | simpl; lia].
Defined.

(** X12: the same through register A as the address: a STORE that passes
    its checks leaves A as it was, and a LOAD that follows gives the stored
    value back. *)
Theorem store_load_round_trip (r r' : string) (rest rest' : list string)
    (s : state) (a v p x : Z) :
  getreg "A" s = Val a → getreg r s = Val v → overflows v = false →
  getreg "P" s = Val p → getreg "X" s = Val x →
  - Z.of_nat (length (memory s)) ≤ a < Z.of_nat (length (memory s)) →
  ∃ s1, run_parts ("STORE" :: r :: rest) s = Val s1
        ∧ error s1 = error s
        ∧ getreg "A" s1 = Val a
        ∧ dispatch ("LOAD" :: r' :: rest') s1 = Val (Fall (setreg r' v s1)).
Proof.
  intros Ha Hv Ho Hp Hx Hrange.
  destruct (py_setitem_in_range (memory s) a v Hrange) as [m Hset].
  exists (setreg "X" (x + 1) (setreg "P" (p + 1) (setmem m s))).
  assert (getreg "A" (setreg "X" (x + 1) (setreg "P" (p + 1) (setmem m s)))
          = Val a) as Ha'.
  { rewrite !getreg_setreg_ne; done. }
  split; [| split; [reflexivity | split; [exact Ha' |]]].
  - unfold run_parts, dispatch. simpl. rewrite Ha. simpl. rewrite Hv.
    simpl. rewrite Ho, Hset. simpl.
    apply advance_spec; by apply getreg_lookup.
  - unfold dispatch. simpl. rewrite Ha'. simpl.
    by rewrite (py_setitem_getitem _ _ a a v Hset eq_refl).
Qed.

Lemma store_load_round_trip_witness :
  ∃ s1, run_parts ["STORE"; "B"] (setreg "B" 9 (setreg "A" 3 init)) = Val s1
        ∧ error s1 = error (setreg "B" 9 (setreg "A" 3 init))
        ∧ getreg "A" s1 = Val 3
        ∧ dispatch ["LOAD"; "C"] s1 = Val (Fall (setreg "C" 9 s1)).
Proof.
  apply (store_load_round_trip "B" "C" [] []
           (setreg "B" 9 (setreg "A" 3 init)) 3 9 0 0);
    first [reflexivity | simpl; lia].
Defined.

(** ** Programs that leave the step counter alone *)

Lemma execute_S (n : nat) (s : state) :
  execute (S n) s
  = match execute_body s with
    | Exc e => Some (Exc e)
    | Val (Break s') => Some (Val s')
    | Val (Continue s') => execute n s'
    end.
Proof. reflexivity. Qed.

(** What a pass that dispatched went through. *)
Lemma execute_body_Continue (s s' : state) :
  execute_body s = Val (Continue s') →
  error s = false
  ∧ (∃ c, c ∈ commands s ∧ parse_command c s = Val s')
  ∧ ∃ x, getreg "X" s = Val x ∧ x ≤ 10 ^ 6.
Proof.
  intros H. unfold execute_body in H. unfold mbind, res_bind in H.
  repeat (case_match; simplify_eq/=).
  match goal with
  | Hc : _ && negb (error s) = true |- _ =>
      apply andb_true_iff in Hc as [_ Hc]; apply negb_true_iff in Hc
  end.
  split; [done |]. split.
  - eexists. split; [by eapply py_getitem_elem | done].
  - eexists. split; [done |].
    match goal with
    | Hx : (_ >? 10 ^ 6) = false |- _ =>
        rewrite Z.gtb_ltb in Hx; by apply Z.ltb_ge in Hx
    end.
Qed.

Lemma dispatch_X (parts : list string) (s : state) (f : flow) :
  parts !! 1%nat ≠ Some "X" → dispatch parts s = Val f →
  short_term (flow_state f) !! "X" = short_term s !! "X".
Proof.
  intros Hne H. unfold dispatch, arith, part in H.
  res_cases H; try reflexivity;
    rewrite lookup_insert_ne; first [done | congruence].
Qed.

Lemma run_parts_X (parts : list string) (s s' : state) (x : Z) :
  parts !! 1%nat ≠ Some "X" → getreg "X" s = Val x →
  run_parts parts s = Val s' →
  getreg "X" s' = Val (x + 1) ∨ error s' = true.
Proof.
  intros Hne Hx H. unfold run_parts in H.
  destruct (dispatch parts s) as [f | e] eqn:Hd; [| discriminate H].
  pose proof (dispatch_X _ _ _ Hne Hd) as HX. simpl in H.
  destruct f as [s1 | s1]; simpl in *.
  - left. destruct (advance_inv _ _ H) as (p & x1 & _ & Hx1 & ->).
    apply getreg_lookup in Hx. rewrite HX, Hx in Hx1. simplify_eq.
    apply getreg_setreg.
  - right. simplify_eq. by eapply dispatch_Return_error.
Qed.

Lemma x_free_run (n : nat) :
  ∀ (s : state) (x : Z),
    x_free (commands s) → getreg "X" s = Val x →
    10 ^ 6 + 1 ≤ x + Z.of_nat n →
    is_Some (execute (S (S n)) s).
Proof.
  induction n as [| n IH]; intros s x Hfree Hx Hn; rewrite execute_S;
    destruct (execute_body s) as [[s1 | s1] | e] eqn:Hbody; try done.
  - destruct (execute_body_Continue _ _ Hbody)
      as (_ & _ & x' & Hx' & Hle).
    rewrite Hx in Hx'. simplify_eq. lia.
  - destruct (execute_body_Continue _ _ Hbody)
      as (Herr & (c & Hc & Hrun) & x' & Hx' & Hle).
    pose proof (run_parts_commands _ _ _ Hrun) as Hcs.
    destruct (run_parts_X _ _ _ x (Hfree c Hc) Hx Hrun) as [Hx1 | He1].
    + apply (IH s1 (x + 1)); [by rewrite Hcs | exact Hx1 | lia].
    + rewrite execute_S.
      destruct (execute_body s1) as [[s2 | s2] | e] eqn:Hbody1; try done.
      destruct (execute_body_Continue _ _ Hbody1) as (Herr1 & _).
      congruence.
Qed.

(** X13: the step limit does bound every program that never has X as the
    first operand of a line, whatever else it does: such a run ends
    (normally, by a fault or by an uncaught exception) within 10^6 + 3
    passes of the loop. *)
Theorem x_free_program_terminates (lines : list string) :
  x_free lines →
  ∃ fuel, Z.of_nat fuel ≤ 10 ^ 6 + 3 ∧ is_Some (run fuel lines).
Proof.
  intros Hfree. exists (S (S (Z.to_nat (10 ^ 6 + 1)))). split; [lia |].
  apply (x_free_run _ _ 0); [exact Hfree | reflexivity | lia].
Qed.

Lemma x_free_program_terminates_witness :
  x_free ["ADDI A 1"; "J -2"]
  ∧ ∃ fuel, Z.of_nat fuel ≤ 10 ^ 6 + 3
            ∧ is_Some (run fuel ["ADDI A 1"; "J -2"]).
Proof.
  assert (x_free ["ADDI A 1"; "J -2"]) as Hfree.
  { intros c Hc. apply list_elem_of_In in Hc.
    destruct Hc as [<- | [<- | []]]; discriminate. }
  split; [exact Hfree |].
  exact (x_free_program_terminates _ Hfree).
Defined.

(** ** The input loop *)

Lemma load_commands_one_more (c : string) (lines : list string)
    (s : state) :
  load_commands_from_user lines (load_commands_from_user [c] s)
  = load_commands_from_user (c :: lines) s.
Proof.
  unfold load_commands_from_user. simpl. by rewrite <- app_assoc.
Qed.

Lemma load_commands_none (s : state) : load_commands_from_user [] s = s.
Proof.
  destruct s. unfold load_commands_from_user. simpl.
  by rewrite app_nil_r.
Qed.

(** X14: the input loop stops at the first line that is END once
    stripped: the lines before it are appended to the commands, each one
    stripped and in order, the lines after it are not read, and END itself
    is never a command. *)
Theorem input_loop_stops_at_END (before after : list string) (l : string)
    (s : state) :
  Forall (λ c, strip c ≠ "END") before → strip l = "END" →
  load_commands_from_input (before ++ l :: after) s
  = Loaded (load_commands_from_user (strip <$> before) s).
Proof.
  intros Hbefore Hl. revert s.
  induction Hbefore as [| c before Hc _ IH]; intros s; simpl.
  - rewrite Hl. simpl. by rewrite load_commands_none.
  - apply String.eqb_neq in Hc. rewrite Hc.
    rewrite IH. by rewrite load_commands_one_more.
Qed.

Lemma input_loop_stops_at_END_witness :
  load_commands_from_input
    ([" LOADI A 5"; "PRINT A "] ++ " END " :: ["HALT"]) init
  = Loaded (load_commands_from_user
              (strip <$> [" LOADI A 5"; "PRINT A "]) init).
Proof.
  apply input_loop_stops_at_END; [| reflexivity].
  repeat constructor; discriminate.
Defined.

(** X15: an input without a line that is END once stripped (the empty
    input included) is read to its end, and the next [input()] raises the
    uncaught EOFError: nothing is executed. *)
Theorem input_without_END_raises (input : list string) (s : state) :
  Forall (λ c, strip c ≠ "END") input →
  load_commands_from_input input s = EOFError.
Proof.
  intros H. revert s. induction H as [| c input Hc _ IH]; intros s; simpl.
  - reflexivity.
  - apply String.eqb_neq in Hc. by rewrite Hc.
Qed.

Lemma input_without_END_raises_witness :
  load_commands_from_input ["PRINT A"; "end"; "END 1"] init = EOFError.
Proof.
  apply input_without_END_raises. repeat constructor; discriminate.
Defined.

(** ** White space around a line *)

Lemma split_lstrip (c : string) : split (lstrip c) = split c.
Proof.
  unfold split. induction c as [| ch c IH]; [reflexivity |].
  simpl. destruct (is_space ch) eqn:Hch.
  - simpl. exact IH.
  - simpl. by rewrite Hch.
Qed.

Lemma split_from_rstrip (c : string) :
  ∀ cur, split_from cur (rstrip c) = split_from cur c.
Proof.
  induction c as [| ch c IH]; intros cur; [reflexivity |].
  simpl. destruct (rstrip c) as [| ch' r] eqn:Hr.
  - destruct (is_space ch) eqn:Hch.
    + by rewrite <- (IH EmptyString).
    + simpl. rewrite Hch. apply IH.
  - simpl. destruct (is_space ch); by rewrite <- IH.
Qed.

(** X16: the stripping done by the input loop does not change what a line
    executes: a line and its stripped form split into the same words, so
    [parse_command] does the same on both. *)
Theorem strip_does_not_change_execution (c : string) (s : state) :
  split (strip c) = split c
  ∧ parse_command (strip c) s = parse_command c s.
Proof.
  assert (split (strip c) = split c) as H.
  { unfold strip, split. rewrite split_from_rstrip. apply split_lstrip. }
  split; [exact H |]. unfold parse_command. by rewrite H.
Qed.

(** ** Reads from memory and malformed operands *)

Lemma py_getitem_negative {A : Type} (l : list A) (i : Z) :
  - Z.of_nat (length l) ≤ i < 0 →
  py_getitem l i = py_getitem l (i + Z.of_nat (length l)).
Proof.
  intros [Hlo Hhi]. unfold py_getitem, py_pos.
  assert ((i <? 0) = true) as -> by (apply Z.ltb_lt; lia).
  assert ((i + Z.of_nat (length l) <? 0) = false) as ->
    by (apply Z.ltb_ge; lia).
  reflexivity.
Qed.

(** X17: the loads do not check the index either. A LOADA whose index is
    below -2048 or from 2048 on, and a LOAD with such a value in A, raise
    the uncaught IndexError; a LOADA with a negative index from -2048 on
    reads the cell counted from the end, as the LOADA with that index plus
    2048 does. *)
Theorem load_index_unchecked (r tok tok' : string) (rest : list string)
    (s : state) (i a : Z) :
  py_int tok = Val i → getreg "A" s = Val a →
  py_int tok' = Val (i + Z.of_nat (length (memory s))) →
  (i < - Z.of_nat (length (memory s)) ∨ Z.of_nat (length (memory s)) ≤ i →
   run_parts ("LOADA" :: r :: tok :: rest) s = Exc IndexError)
  ∧ (a < - Z.of_nat (length (memory s)) ∨ Z.of_nat (length (memory s)) ≤ a →
     run_parts ("LOAD" :: r :: rest) s = Exc IndexError)
  ∧ (- Z.of_nat (length (memory s)) ≤ i < 0 →
     run_parts ("LOADA" :: r :: tok :: rest) s
     = run_parts ("LOADA" :: r :: tok' :: rest) s).
Proof.
  intros Hi Ha Hi'. split; [| split].
  - intros Hout. unfold run_parts, dispatch. simpl. rewrite Hi. simpl.
    by rewrite (py_getitem_out_of_range _ _ Hout).
  - intros Hout. unfold run_parts, dispatch. simpl. rewrite Ha. simpl.
    by rewrite (py_getitem_out_of_range _ _ Hout).
  - intros Hneg. unfold run_parts, dispatch. simpl. rewrite Hi, Hi'. simpl.
    by rewrite (py_getitem_negative _ _ Hneg).
Qed.

Lemma load_index_unchecked_witness :
  py_int "2048" = Val 2048 ∧ getreg "A" init = Val 0
  ∧ run_parts ["LOADA"; "B"; "2048"] init = Exc IndexError.
Proof.
  assert (py_int "2048" = Val 2048) as Hi by reflexivity.
  assert (getreg "A" init = Val 0) as Ha by reflexivity.
  assert (py_int "4096" = Val (2048 + Z.of_nat (length (memory init))))
    as Hi' by reflexivity.
  split; [exact Hi |]. split; [exact Ha |].
  apply (proj1 (load_index_unchecked "B" "2048" "4096" [] init 2048 0
                  Hi Ha Hi')).
  right. simpl. lia.
Defined.

(** X18: operands are not validated before use. A word that [int] does
    not accept where LOADA, LOADI, STOREA or ADDI expect their integer
    raises the uncaught ValueError, and a line that is too short raises
    the uncaught IndexError of the missing word. *)
Theorem malformed_operand_raises (r tok : string) (rest : list string)
    (s : state) :
  py_int tok = Exc ValueError →
  run_parts ("LOADA" :: r :: tok :: rest) s = Exc ValueError
  ∧ run_parts ("LOADI" :: r :: tok :: rest) s = Exc ValueError
  ∧ run_parts ("STOREA" :: r :: tok :: rest) s = Exc ValueError
  ∧ run_parts ("ADDI" :: r :: tok :: rest) s = Exc ValueError
  ∧ run_parts ["LOADA"; r] s = Exc IndexError
  ∧ run_parts ["LOADI"; r] s = Exc IndexError
  ∧ run_parts ["STOREA"; r] s = Exc IndexError
  ∧ run_parts ["ADDI"; r] s = Exc IndexError
  ∧ run_parts ["MOVE"; r] s = Exc IndexError
  ∧ run_parts ["PRINT"] s = Exc IndexError.
Proof.
  intros Htok.
  repeat split; unfold run_parts, dispatch; simpl; rewrite ?Htok;
    reflexivity.
Qed.

Lemma malformed_operand_raises_witness :
  py_int "0x10" = Exc ValueError
  ∧ run_parts ["LOADI"; "A"; "0x10"] init = Exc ValueError.
Proof.
  assert (py_int "0x10" = Exc ValueError) as H by reflexivity.
  split; [exact H |].
  exact (proj1 (proj2 (malformed_operand_raises "A" "0x10" [] init H))).
Defined.
